(** * Code-Buddy: the interaction dispatcher, its authorization gate and its
      rate-limit step

    Shallow embedding of the interaction listener (the anonymous default
    export, called [interactionCreate] here) and of
    [processCommandInteraction], together with the rate-limit buckets the
    dispatcher drives.  The command handler is an outcome only (it resolves
    or throws); what a handler does of its own is outside the dispatcher.

    Promises are modelled by a small monad that threads the mutable world
    (rate-limit managers, the global statistics document), may throw, and
    records the observable calls in order.  [interactionCreate] is the
    listener over a statistics store that applies its updates;
    [interactionCreateWith] is the listener over a store that may reject
    them. *)

From Stdlib Require Import ZArith List Bool Lia.
From stdpp Require Import gmap strings.
Import ListNotations.

Local Open Scope string_scope.
Local Open Scope Z_scope.

(** ** Rate-limit buckets and managers *)

Module RateLimit.

(** Modelled from the spec: the rate-limit library ([RateLimitManager] and
    the bucket it hands out) is a dependency whose code is not part of the
    sources.  A bucket holds [count] and [windowStart]; its key in the
    manager is its identifier; [limit] and [windowDurationMs] are the
    manager's. *)
Record Bucket := { count : nat; windowStart : Z }.

Record Manager := {
  limit : nat;
  windowDurationMs : Z;
  buckets : gmap string Bucket
}.

Definition setBuckets (m : Manager) (bs : gmap string Bucket) : Manager :=
  {| limit := limit m; windowDurationMs := windowDurationMs m; buckets := bs |}.

(** Modelled from the spec: the window is over once
    [now >= windowStart + windowDurationMs] (property P1). *)
Definition expired (m : Manager) (now : Z) (b : Bucket) : bool :=
  windowStart b + windowDurationMs m <=? now.

(** Modelled from the spec: the window-expiry check shared by [acquire]
    and [consume]: [count] back to 0 and [windowStart] to now. *)
Definition refresh (m : Manager) (now : Z) (b : Bucket) : Bucket :=
  if expired m now b then {| count := 0; windowStart := now |} else b.

(** Modelled from the spec: a bucket is created lazily on the first
    acquisition of a never-seen identifier. *)
Definition fresh (now : Z) : Bucket := {| count := 0; windowStart := now |}.

Definition current (m : Manager) (now : Z) (id : string) : Bucket :=
  refresh m now (default (fresh now) (buckets m !! id)).

Record View := { limited : bool; remainingTime : Z }.

(** Modelled from the spec: [limited] iff, after accounting for window
    expiry, [count >= limit]; [remainingTime] is
    [windowStart + windowDurationMs - now]. *)
Definition view (m : Manager) (now : Z) (b : Bucket) : View :=
  {| limited := (limit m <=? count b)%nat;
     remainingTime := windowStart b + windowDurationMs m - now |}.

(** Modelled from the spec: [acquire] looks the bucket up or creates it,
    performs the expiry check and reports, without consuming. *)
Definition acquire (m : Manager) (now : Z) (id : string) : Manager * View :=
  let b := current m now id in
  (setBuckets m (<[id := b]> (buckets m)), view m now b).

(** Modelled from the spec: [consume] performs the same expiry check and
    increments [count] by 1; it never enforces the limit. *)
Definition consume (m : Manager) (now : Z) (id : string) : Manager :=
  let b := current m now id in
  setBuckets m (<[id := {| count := S (count b); windowStart := windowStart b |}]> (buckets m)).

(** [count] as the data model defines it: the units consumed in the
    current window of identifier [id], as seen at time [now]. *)
Definition countAt (m : Manager) (now : Z) (id : string) : nat :=
  count (current m now id).

End RateLimit.

(** ** Commands, interactions and the bot instance *)

Definition Permission := string.
Definition ManagerRef := nat.

Inductive Scope := ScopeGlobal | ScopeGuild | ScopeUser.

(** [command.ratelimit]: each property is either undefined or (a reference
    to) a manager object. *)
Module Ratelimit.
Record t := {
  global : option ManagerRef;
  guild : option ManagerRef;
  user : option ManagerRef
}.
End Ratelimit.

Module Interaction.
Inductive InteractionTypes :=
| PING
| APPLICATION_COMMAND
| MESSAGE_COMPONENT
| APPLICATION_COMMAND_AUTOCOMPLETE
| MODAL_SUBMIT.

(** The user-visible replies of the dispatcher, one per [createMessage]
    call site. *)
Inductive Message :=
| MsgDisabled
| MsgOwnerOnly
| MsgPremiumOnly
| MsgHelperOnly
| MsgMissingBotPermissions (required : list Permission)
| MsgMissingUserPermissions (required : list Permission)
| MsgRateLimitedGlobal (remainingTime : Z)
| MsgRateLimitedGuild (remainingTime : Z)
| MsgRateLimitedUser (remainingTime : Z)
| MsgCommandNotFound
| MsgErrorOccurred (name : string).

Record t := {
  type : InteractionTypes;
  name : string;                             (* interaction.data.name *)
  user_id : string;                          (* interaction.user.id *)
  guild : option string;                     (* interaction.guild, by its id *)
  appPermissions : option (list Permission); (* interaction.appPermissions *)
  member : option (list Permission);         (* interaction.member, by its permissions *)
  createMessage_rejects : Message -> option string
    (* whether sending that reply fails, and with which error *)
}.
End Interaction.
Import Interaction.

Record Command := {
  disabled : bool;
  superUserOnly : bool;
  premiumOnly : bool;
  helperUserOnly : bool;
  requiredBotPermissions : option (list Permission);
  requiredUserPermissions : option (list Permission);
  ratelimit : option Ratelimit.t;
  run : Interaction.t -> option string   (* None: resolves; Some e: throws e *)
}.

Record MainT := {
  commandStoreMap : gmap string Command;
  isOwner : string -> bool;
  isPremiumUser : string -> bool
}.

Record Config := { IsInDevelopmentMode : bool }.

(** [Permission.has(...permissions)]: every listed permission is held. *)
Definition has (held required : list Permission) : bool :=
  forallb (fun p => bool_decide (p ∈ held)) required.


(** [flags: MessageFlags.EPHEMERAL] is set at every call site but two. *)
Definition ephemeral (m : Message) : bool :=
  match m with
  | MsgMissingBotPermissions _ | MsgErrorOccurred _ => false
  | _ => true
  end.

(** ** The world and the dispatcher's monad *)

Record World := {
  clock : Z;                                   (* Date.now() *)
  managers : ManagerRef -> RateLimit.Manager;  (* the manager objects *)
  commands_executed : nat;                     (* GlobalStatsModel, find_id 'global' *)
  commands_failed : nat
}.

Inductive Effect :=
| Acquire (s : Scope) (r : ManagerRef) (id : string)
| Consume (s : Scope) (r : ManagerRef) (id : string)
| Reply (m : Message)
| RunHandler (name : string)
| IncExecuted
| IncFailed
| LogDebug
| LogError (error : string).

Inductive Outcome (A : Type) :=
| Returned (a : A)
| Thrown (error : string).
Arguments Returned {A} a.
Arguments Thrown {A} error.

Record Result (A : Type) := {
  outcome : Outcome A;
  world : World;
  trace : list Effect
}.
Arguments outcome {A} _.
Arguments world {A} _.
Arguments trace {A} _.

Definition M (A : Type) : Type := World -> Result A.

Definition ret {A} (a : A) : M A :=
  fun w => {| outcome := Returned a; world := w; trace := [] |}.

Definition throw {A} (e : string) : M A :=
  fun w => {| outcome := Thrown e; world := w; trace := [] |}.

Definition bind {A B} (c : M A) (k : A -> M B) : M B :=
  fun w =>
    let r := c w in
    match outcome r with
    | Returned a =>
        let r' := k a (world r) in
        {| outcome := outcome r'; world := world r'; trace := trace r ++ trace r' |}
    | Thrown e => {| outcome := Thrown e; world := world r; trace := trace r |}
    end.

(** [try { c } catch (error) { h error }] *)
Definition try_catch {A} (c : M A) (h : string -> M A) : M A :=
  fun w =>
    let r := c w in
    match outcome r with
    | Returned a => r
    | Thrown e =>
        let r' := h e (world r) in
        {| outcome := outcome r'; world := world r'; trace := trace r ++ trace r' |}
    end.

(** [c.catch(() => {})] *)
Definition swallow (c : M unit) : M unit :=
  try_catch c (fun _ => ret tt).

Definition emit (e : Effect) : M unit :=
  fun w => {| outcome := Returned tt; world := w; trace := [e] |}.

Notation "'let*' x ':=' c 'in' k" := (bind c (fun x => k))
  (at level 10, x name, c at level 100, k at level 200, only parsing).

Definition setManagers (w : World) (ms : ManagerRef -> RateLimit.Manager) : World :=
  {| clock := clock w; managers := ms;
     commands_executed := commands_executed w; commands_failed := commands_failed w |}.

Definition upd (ms : ManagerRef -> RateLimit.Manager) (r : ManagerRef)
    (m : RateLimit.Manager) : ManagerRef -> RateLimit.Manager :=
  fun r' => if Nat.eqb r r' then m else ms r'.

(** What [manager.acquire(id)] hands back: the bucket, with the two
    properties the dispatcher reads.  They are recorded when the handle is
    obtained: the dispatcher reads them at the same [clock], and the
    acquisitions it makes in between do not change what a bucket reports
    (lemma [RateLimitFacts.view_acquire]). *)
Record RateLimitHandle := {
  manager : ManagerRef;
  identifier : string;
  limited : bool;
  remainingTime : Z
}.

Definition acquire (s : Scope) (r : ManagerRef) (id : string) : M RateLimitHandle :=
  fun w =>
    let a := RateLimit.acquire (managers w r) (clock w) id in
    {| outcome := Returned {| manager := r; identifier := id;
                              limited := RateLimit.limited (snd a);
                              remainingTime := RateLimit.remainingTime (snd a) |};
       world := setManagers w (upd (managers w) r (fst a));
       trace := [Acquire s r id] |}.

Definition consume (s : Scope) (h : RateLimitHandle) : M unit :=
  fun w =>
    let m' := RateLimit.consume (managers w (manager h)) (clock w) (identifier h) in
    {| outcome := Returned tt;
       world := setManagers w (upd (managers w) (manager h) m');
       trace := [Consume s (manager h) (identifier h)] |}.

(** [manager?.acquire(id)] *)
Definition acquire_opt (s : Scope) (mgr : option ManagerRef) (id : string)
    : M (option RateLimitHandle) :=
  match mgr with
  | Some r => let* h := acquire s r id in ret (Some h)
  | None => ret None
  end.

(** [handle?.consume()] *)
Definition consume_opt (s : Scope) (h : option RateLimitHandle) : M unit :=
  match h with
  | Some h => consume s h
  | None => ret tt
  end.

(** [handle?.limited], as a condition *)
Definition limited_opt (h : option RateLimitHandle) : bool :=
  match h with
  | Some h => limited h
  | None => false
  end.

Definition remainingTime_opt (h : option RateLimitHandle) : Z :=
  match h with
  | Some h => remainingTime h
  | None => 0
  end.

(** JS truthiness of an optional object. *)
Definition truthy {A} (o : option A) : bool :=
  match o with Some _ => true | None => false end.

Definition createMessage (i : Interaction.t) (m : Message) : M unit :=
  let* _ := emit (Reply m) in
  match createMessage_rejects i m with
  | Some e => throw e
  | None => ret tt
  end.

(** [GlobalStatsModel.findOneAndUpdate({ find_id: 'global' }, { $inc: ... })],
    when the store applies it: the statistics document is a pair of
    counters.  [incExecuted] and [incFailed] are the two updates as applied;
    that the store may reject an update is modelled by
    [GlobalStatsModel_findOneAndUpdate] below. *)
Definition incExecuted : M unit :=
  fun w => {| outcome := Returned tt;
              world := {| clock := clock w; managers := managers w;
                          commands_executed := S (commands_executed w);
                          commands_failed := commands_failed w |};
              trace := [IncExecuted] |}.

Definition incFailed : M unit :=
  fun w => {| outcome := Returned tt;
              world := {| clock := clock w; managers := managers w;
                          commands_executed := commands_executed w;
                          commands_failed := S (commands_failed w) |};
              trace := [IncFailed] |}.

(** What each recorded call does to the world: the world after a
    computation is the replay of its trace (lemma [Sound] below). *)
Definition replay (w : World) (e : Effect) : World :=
  match e with
  | Acquire _ r id =>
      setManagers w (upd (managers w) r (fst (RateLimit.acquire (managers w r) (clock w) id)))
  | Consume _ r id =>
      setManagers w (upd (managers w) r (RateLimit.consume (managers w r) (clock w) id))
  | IncExecuted =>
      {| clock := clock w; managers := managers w;
         commands_executed := S (commands_executed w);
         commands_failed := commands_failed w |}
  | IncFailed =>
      {| clock := clock w; managers := managers w;
         commands_executed := commands_executed w;
         commands_failed := S (commands_failed w) |}
  | Reply _ | RunHandler _ | LogDebug | LogError _ => w
  end.

Definition isRateLimitCall (e : Effect) : bool :=
  match e with
  | Acquire _ _ _ | Consume _ _ _ => true
  | _ => false
  end.

Definition isConsume (e : Effect) : bool :=
  match e with
  | Consume _ _ _ => true
  | _ => false
  end.

Definition isRunHandler (e : Effect) : bool :=
  match e with
  | RunHandler _ => true
  | _ => false
  end.

(** The manager and the identifier of each scope of a policy. *)
Definition scopeManager (rl : Ratelimit.t) (s : Scope) : option ManagerRef :=
  match s with
  | ScopeGlobal => Ratelimit.global rl
  | ScopeGuild => Ratelimit.guild rl
  | ScopeUser => Ratelimit.user rl
  end.

(** A scope gates ("is strict") when the condition of its block,
    [command.ratelimit.scope], is truthy; otherwise its block takes the
    consume branch. *)
Definition strict (rl : Ratelimit.t) (s : Scope) : bool :=
  truthy (scopeManager rl s).

(** ** The dispatcher *)

Section Dispatcher.

Variable Main : MainT.
Variable config : Config.

(** [command?.flag], for a boolean property. *)
Definition flag (f : Command -> bool) (command : option Command) : bool :=
  match command with
  | Some c => f c
  | None => false
  end.

(** [command?.property], for an optional object property. *)
Definition prop {A} (f : Command -> option A) (command : option Command) : option A :=
  match command with
  | Some c => f c
  | None => None
  end.

(** [permissions?.has(...required)] as a condition: undefined is falsy. *)
Definition has_opt (held : option (list Permission)) (required : list Permission) : bool :=
  match held with
  | Some ps => has ps required
  | None => false
  end.

(** *** The authorization gate: one definition per [if] of
    [processCommandInteraction], in the order of the source. *)

Definition checkDisabled (command : option Command) (i : Interaction.t) : option Message :=
  if flag disabled command && negb (isOwner Main (user_id i))
  then Some MsgDisabled else None.

Definition checkSuperUserOnly (command : option Command) (i : Interaction.t) : option Message :=
  if flag superUserOnly command && negb (isOwner Main (user_id i))
  then Some MsgOwnerOnly else None.

Definition checkPremiumOnly (command : option Command) (i : Interaction.t) : option Message :=
  if flag premiumOnly command && negb (isPremiumUser Main (user_id i))
     && negb (isOwner Main (user_id i))
  then Some MsgPremiumOnly else None.

Definition checkHelperUserOnly (command : option Command) (i : Interaction.t) : option Message :=
  if flag helperUserOnly command && negb (isOwner Main (user_id i))
  then Some MsgHelperOnly else None.

Definition checkBotPermissions (command : option Command) (i : Interaction.t) : option Message :=
  match prop requiredBotPermissions command with
  | Some required =>
      if negb (has_opt (appPermissions i) required)
      then Some (MsgMissingBotPermissions required) else None
  | None => None
  end.

Definition checkUserPermissions (command : option Command) (i : Interaction.t) : option Message :=
  match prop requiredUserPermissions command with
  | Some required =>
      if negb (isOwner Main (user_id i))
      then if negb (has_opt (member i) required)
           then Some (MsgMissingUserPermissions required) else None
      else None
  | None => None
  end.

Definition Check := option Command -> Interaction.t -> option Message.

Definition gateChain : list Check :=
  [checkDisabled; checkSuperUserOnly; checkPremiumOnly; checkHelperUserOnly;
   checkBotPermissions; checkUserPermissions].

(** Each [if] returns as soon as it rejects. *)
Fixpoint firstRejection (checks : list Check) (command : option Command)
    (i : Interaction.t) : option Message :=
  match checks with
  | [] => None
  | check :: rest =>
      match check command i with
      | Some m => Some m
      | None => firstRejection rest command i
      end
  end.

Definition authorize (command : option Command) (i : Interaction.t) : option Message :=
  firstRejection gateChain command i.

(** *** The rate-limit step *)

(** The block of one scope:
    [if (command.ratelimit.scope) { if (handle?.limited) return reply }
     else { handle?.consume() }]. *)
Definition scopeBlock (s : Scope) (configured : option ManagerRef)
    (handle : option RateLimitHandle) (reply : Z -> Message) : M (option Message) :=
  if truthy configured then
    if limited_opt handle
    then ret (Some (reply (remainingTime_opt handle)))
    else ret None
  else
    let* _ := consume_opt s handle in
    ret None.

(** Run [k] unless [c] has returned with a rejection. *)
Definition unlessRejected (c k : M (option Message)) : M (option Message) :=
  let* r := c in
  match r with
  | Some m => ret (Some m)
  | None => k
  end.

Definition checkRatelimit (rl : Ratelimit.t) (i : Interaction.t) : M (option Message) :=
  let globalManager := Ratelimit.global rl in
  let guildManager := Ratelimit.guild rl in
  let userManager := Ratelimit.user rl in
  let* GlobalRateLimit := acquire_opt ScopeGlobal globalManager (name i) in
  let* UserRateLimit := acquire_opt ScopeUser userManager (user_id i) in
  unlessRejected
    (scopeBlock ScopeGlobal (Ratelimit.global rl) GlobalRateLimit MsgRateLimitedGlobal)
    (unlessRejected
       (match Interaction.guild i with
        | Some guild_id =>
            let* GuildRateLimit := acquire_opt ScopeGuild guildManager guild_id in
            scopeBlock ScopeGuild (Ratelimit.guild rl) GuildRateLimit MsgRateLimitedGuild
        | None => ret None
        end)
       (scopeBlock ScopeUser (Ratelimit.user rl) UserRateLimit MsgRateLimitedUser)).

(** [command.run({ interaction, instance })] *)
Definition runHandler (c : Command) (i : Interaction.t) : M unit :=
  let* _ := emit (RunHandler (name i)) in
  match run c i with
  | Some e => throw e
  | None => ret tt
  end.

Definition processCommandInteraction (i : Interaction.t) : M unit :=
  let command := commandStoreMap Main !! name i in
  let isOwner := isOwner Main (user_id i) in
  match authorize command i with
  | Some m => createMessage i m
  | None =>
      let* limitedReply :=
        match prop ratelimit command with
        | Some rl => if negb isOwner then checkRatelimit rl i else ret None
        | None => ret None
        end in
      match limitedReply with
      | Some m => createMessage i m
      | None =>
          match command with
          | Some c => runHandler c i
          | None => createMessage i MsgCommandNotFound
          end
      end
  end.

(** The listener (the module's default export) over a statistics store that
    applies both updates; [interactionCreateWith] below is the listener over
    any store, and the two agree on a store that rejects nothing (lemma
    [interactionCreateWith_accepting]). *)
Definition interactionCreate (i : Interaction.t) : M unit :=
  let* _ :=
    match type i with
    | APPLICATION_COMMAND =>
        try_catch
          (let* _ := (if IsInDevelopmentMode config then emit LogDebug else ret tt) in
           let* _ := incExecuted in
           processCommandInteraction i)
          (fun error =>
             let* _ := emit (LogError error) in
             let* _ := swallow (createMessage i (MsgErrorOccurred (name i))) in
             if negb (IsInDevelopmentMode config) then incFailed else ret tt)
    | _ => ret tt
    end in
  match type i with
  | APPLICATION_COMMAND_AUTOCOMPLETE => emit LogDebug
  | _ => ret tt
  end.

End Dispatcher.

(** ** The listener over a statistics store that may reject *)

Inductive StatsField := CommandsExecuted | CommandsFailed.

(** [GlobalStatsModel]: whether it rejects the update of a field (the
    connection is down, the write is refused), and with which error. *)
Record StatsStore := { update_rejects : StatsField -> option string }.


(** [await GlobalStatsModel.findOneAndUpdate({ find_id: 'global' },
    { $inc: { field: 1 } }, { upsert: true, new: true })]: the awaited promise
    rejects, or the counter is incremented.  A rejected update leaves no
    record in the trace: [IncExecuted] and [IncFailed] record applied
    updates. *)
Definition GlobalStatsModel_findOneAndUpdate (store : StatsStore) (field : StatsField)
    : M unit :=
  match update_rejects store field with
  | Some e => throw e
  | None =>
      match field with
      | CommandsExecuted => incExecuted
      | CommandsFailed => incFailed
      end
  end.

(** The [try] block of the listener (lines 13-24): the first update is
    inside it, so its rejection enters the [catch] block. *)
Definition tryBlock (store : StatsStore) (Main : MainT) (config : Config)
    (i : Interaction.t) : M unit :=
  let* _ := (if IsInDevelopmentMode config then emit LogDebug else ret tt) in
  let* _ := GlobalStatsModel_findOneAndUpdate store CommandsExecuted in
  processCommandInteraction Main i.

(** The [catch] block (lines 25-43): the reply has [.catch(() => {})]; the
    second update is awaited with no guard of its own, so its rejection is
    the listener's. *)
Definition catchBlock (store : StatsStore) (config : Config) (i : Interaction.t)
    (error : string) : M unit :=
  let* _ := emit (LogError error) in
  let* _ := swallow (createMessage i (MsgErrorOccurred (name i))) in
  if negb (IsInDevelopmentMode config)
  then GlobalStatsModel_findOneAndUpdate store CommandsFailed
  else ret tt.

Definition interactionCreateWith (store : StatsStore) (Main : MainT) (config : Config)
    (i : Interaction.t) : M unit :=
  let* _ :=
    match type i with
    | APPLICATION_COMMAND =>
        try_catch (tryBlock store Main config i) (catchBlock store config i)
    | _ => ret tt
    end in
  match type i with
  | APPLICATION_COMMAND_AUTOCOMPLETE => emit LogDebug
  | _ => ret tt
  end.

(** What the [catch] block makes of the error [error], entered in world [w]
    after the calls [before]. *)
Definition caught (store : StatsStore) (config : Config) (i : Interaction.t)
    (error : string) (w : World) (before : list Effect) : Result unit :=
  {| outcome :=
       if IsInDevelopmentMode config then Returned tt
       else match update_rejects store CommandsFailed with
            | Some e => Thrown e
            | None => Returned tt
            end;
     world :=
       if IsInDevelopmentMode config then w
       else match update_rejects store CommandsFailed with
            | Some _ => w
            | None => world (incFailed w)
            end;
     trace :=
       before ++ [LogError error; Reply (MsgErrorOccurred (name i))]
       ++ (if IsInDevelopmentMode config then []
           else match update_rejects store CommandsFailed with
                | Some _ => []
                | None => [IncFailed]
                end) |}.

(** Whether the dispatch of a command event ends in the [catch] block: the
    first update is rejected, or [processCommandInteraction] throws. *)
Definition entersCatch (store : StatsStore) (Main : MainT) (i : Interaction.t)
    (w : World) : bool :=
  match update_rejects store CommandsExecuted with
  | Some _ => true
  | None =>
      match outcome (processCommandInteraction Main i (world (incExecuted w))) with
      | Thrown _ => true
      | Returned _ => false
      end
  end.

(** ** Vocabulary of the statements *)

(** The world after a computation is the replay of the calls it made. *)
Definition Sound {A} (c : M A) : Prop :=
  forall w, world (c w) = fold_left replay (trace (c w)) w.

(** Every call a computation makes satisfies [P]. *)
Definition Emits {A} (P : Effect -> bool) (c : M A) : Prop :=
  forall w, forallb P (trace (c w)) = true.

(** The calls that leave the world as it is. *)
Definition replay_inert (e : Effect) : bool :=
  match e with
  | Reply _ | RunHandler _ | LogDebug | LogError _ => true
  | _ => false
  end.

Definition notConsume (e : Effect) : bool := negb (isConsume e).
Definition notRateLimitCall (e : Effect) : bool := negb (isRateLimitCall e).
Definition notStats (e : Effect) : bool :=
  match e with
  | IncExecuted | IncFailed => false
  | _ => true
  end.

(** The calls recorded for [manager?.acquire(id)]. *)
Definition acquired (s : Scope) (mgr : option ManagerRef) (id : string) : list Effect :=
  match mgr with
  | Some r => [Acquire s r id]
  | None => []
  end.

Definition isCommand (t : InteractionTypes) : bool :=
  match t with
  | APPLICATION_COMMAND => true
  | _ => false
  end.

(** The checks that come before the user-permissions check. *)
Definition earlierChecks (Main : MainT) : list (Check) :=
  [checkDisabled Main; checkSuperUserOnly Main; checkPremiumOnly Main;
   checkHelperUserOnly Main; checkBotPermissions].

(** ** A small bot, for concrete runs *)

Module Sample.

Definition managerOf (lim : nat) (bs : gmap string RateLimit.Bucket) : RateLimit.Manager :=
  {| RateLimit.limit := lim; RateLimit.windowDurationMs := 60000; RateLimit.buckets := bs |}.

(** Manager 0 allows one use a minute and "ping" has used it at time 0;
    every other manager allows five and is empty. *)
Definition w0 : World :=
  {| clock := 1000;
     managers := fun r =>
       match r with
       | O => managerOf 1 {[ "ping" := {| RateLimit.count := 1; RateLimit.windowStart := 0 |} ]}
       | _ => managerOf 5 ∅
       end;
     commands_executed := 0;
     commands_failed := 0 |}.

Definition plain : Command :=
  {| disabled := false; superUserOnly := false; premiumOnly := false;
     helperUserOnly := false; requiredBotPermissions := None;
     requiredUserPermissions := None; ratelimit := None;
     run := fun _ => None |}.

Definition withRatelimit (rl : Ratelimit.t) : Command :=
  {| disabled := false; superUserOnly := false; premiumOnly := false;
     helperUserOnly := false; requiredBotPermissions := None;
     requiredUserPermissions := None; ratelimit := Some rl;
     run := fun _ => None |}.

Definition pingPolicy : Ratelimit.t :=
  {| Ratelimit.global := Some 0%nat; Ratelimit.guild := Some 2%nat;
     Ratelimit.user := Some 1%nat |}.

Definition userOnlyPolicy : Ratelimit.t :=
  {| Ratelimit.global := None; Ratelimit.guild := None; Ratelimit.user := Some 1%nat |}.

Definition ping : Command := withRatelimit pingPolicy.
Definition pong : Command := withRatelimit userOnlyPolicy.

Definition embed : Command :=
  {| disabled := false; superUserOnly := false; premiumOnly := false;
     helperUserOnly := false; requiredBotPermissions := Some ["EMBED_LINKS"];
     requiredUserPermissions := None; ratelimit := None;
     run := fun _ => None |}.

Definition automate : Command :=
  {| disabled := false; superUserOnly := false; premiumOnly := false;
     helperUserOnly := false;
     requiredBotPermissions := Some ["SEND_MESSAGES"; "EMBED_LINKS"];
     requiredUserPermissions := Some ["SEND_MESSAGES"; "MANAGE_GUILD"];
     ratelimit := None;
     run := fun _ => None |}.

Definition secret : Command :=
  {| disabled := true; superUserOnly := true; premiumOnly := false;
     helperUserOnly := false; requiredBotPermissions := None;
     requiredUserPermissions := None; ratelimit := None;
     run := fun _ => None |}.

Definition boom : Command :=
  {| disabled := false; superUserOnly := false; premiumOnly := false;
     helperUserOnly := false; requiredBotPermissions := None;
     requiredUserPermissions := None; ratelimit := None;
     run := fun _ => Some "ECONNREFUSED 10.0.0.7:27017" |}.

Definition Main : MainT :=
  {| commandStoreMap :=
       <["ping" := ping]> (<["pong" := pong]> (<["embed" := embed]>
         (<["automate" := automate]> (<["secret" := secret]> {[ "boom" := boom ]}))));
     isOwner := String.eqb "owner";
     isPremiumUser := fun _ => false |}.

Definition production : Config := {| IsInDevelopmentMode := false |}.
Definition development : Config := {| IsInDevelopmentMode := true |}.

(** A slash command sent from guild "g1", where the bot and the member
    may send messages and nothing else. *)
Definition slash (command user : string) : Interaction.t :=
  {| type := APPLICATION_COMMAND; name := command; user_id := user;
     guild := Some "g1"; appPermissions := Some ["SEND_MESSAGES"];
     member := Some ["SEND_MESSAGES"];
     createMessage_rejects := fun _ => None |}.

(** The same in a direct message: no guild, no member. *)
Definition direct (command user : string) : Interaction.t :=
  {| type := APPLICATION_COMMAND; name := command; user_id := user;
     guild := None;
     appPermissions := Some ["SEND_MESSAGES"; "EMBED_LINKS"];
     member := None;
     createMessage_rejects := fun _ => None |}.


End Sample.

(** Whether the block of the global scope returns with a rejection: the
    scope has a manager whose bucket for the command name is limited. *)
Definition globalRejects (rl : Ratelimit.t) (i : Interaction.t) (w : World) : bool :=
  match Ratelimit.global rl with
  | Some r => RateLimit.limited (snd (RateLimit.acquire (managers w r) (clock w) (name i)))
  | None => false
  end.

(** The scope on whose behalf a manager is called. *)
Definition scopeOf (e : Effect) : option Scope :=
  match e with
  | Acquire s _ _ | Consume s _ _ => Some s
  | _ => None
  end.

Definition onScope (s : Scope) (e : Effect) : bool :=
  match scopeOf e, s with
  | Some ScopeGlobal, ScopeGlobal
  | Some ScopeGuild, ScopeGuild
  | Some ScopeUser, ScopeUser => true
  | _, _ => false
  end.

(** ** The verdict of the rate-limit step, read off the state before it *)

(** What the bucket of [id] in manager [r] reports at the clock of [w]. *)
Definition viewAt (w : World) (r : ManagerRef) (id : string) : RateLimit.View :=
  snd (RateLimit.acquire (managers w r) (clock w) id).

Definition scopeVerdict (w : World) (mgr : option ManagerRef) (id : string)
    (reply : Z -> Message) : option Message :=
  match mgr with
  | Some r =>
      if RateLimit.limited (viewAt w r id)
      then Some (reply (RateLimit.remainingTime (viewAt w r id)))
      else None
  | None => None
  end.

(** The first limited scope in the order global, guild (in a guild only),
    user. *)
Definition verdict (rl : Ratelimit.t) (i : Interaction.t) (w : World) : option Message :=
  match scopeVerdict w (Ratelimit.global rl) (name i) MsgRateLimitedGlobal with
  | Some m => Some m
  | None =>
      match match Interaction.guild i with
            | Some guild_id =>
                scopeVerdict w (Ratelimit.guild rl) guild_id MsgRateLimitedGuild
            | None => None
            end with
      | Some m => Some m
      | None => scopeVerdict w (Ratelimit.user rl) (user_id i) MsgRateLimitedUser
      end
  end.

(** Whether the rate-limit step lets the invocation of [c] through. *)
Definition admitted (Main : MainT) (c : Command) (i : Interaction.t) (w : World) : bool :=
  match ratelimit c with
  | Some rl => isOwner Main (user_id i) || negb (truthy (verdict rl i w))
  | None => true
  end.

(** The manager calls an invocation of [c] makes before its handler or its
    rate-limit reply. *)
Definition ratelimitCalls (Main : MainT) (c : Command) (i : Interaction.t) (w : World)
    : list Effect :=
  match ratelimit c with
  | Some rl => if isOwner Main (user_id i) then [] else trace (checkRatelimit rl i w)
  | None => []
  end.

(** ** Command handlers *)

(** What a handler reads of [interaction.data.options]: the sub-command path
    ([getSubCommand]) and the string options ([getString]). *)
Record OptionsData := {
  subCommandPath : option (list string);
  stringOptions : gmap string string
}.

(** [options.getSubCommand(true)]: the path, or the library's error when the
    interaction carries no sub-command (the text of the error plays no part
    below). *)
Definition getSubCommand (d : OptionsData) : Outcome (list string) :=
  match subCommandPath d with
  | Some path => Returned path
  | None => Thrown "Missing required option: SubCommand or SubCommandGroup."
  end.

(** [options.getString(key, true)]: the value, or the library's error when
    the option is missing. *)
Definition getString (d : OptionsData) (key : string) : Outcome string :=
  match stringOptions d !! key with
  | Some v => Returned v
  | None => Thrown (String.append "Missing required option: " key)
  end.

(** [subCommand.find((name) => name === wanted)], as a condition: the
    element found is truthy unless it is the empty string. *)
Definition findsSubCommand (wanted : string) (subCommand : list string) : bool :=
  match List.find (String.eqb wanted) subCommand with
  | Some found => negb (String.eqb found "")
  | None => false
  end.

(** *** The [automate] command *)

Module Automate.

(** The six sub-command handlers, which live in files of their own. *)
Record Handlers := {
  handleWelcomeConfigure : Interaction.t -> M unit;
  handleWelcomeView : Interaction.t -> M unit;
  handleWelcomeDelete : Interaction.t -> M unit;
  handleGoodbyeConfigure : Interaction.t -> M unit;
  handleGoodbyeView : Interaction.t -> M unit;
  handleGoodbyeDelete : Interaction.t -> M unit
}.

(** [if (cond) await handler(instance, interaction);] *)
Definition when (cond : bool) (c : M unit) : M unit :=
  if cond then c else ret tt.

Definition run (h : Handlers) (d : OptionsData) (interaction : Interaction.t) : M unit :=
  if negb (truthy (Interaction.guild interaction)) then ret tt
  else
    match getSubCommand d with
    | Thrown e => throw e
    | Returned subCommand =>
        let* _ := when (findsSubCommand "welcome-configure" subCommand)
                    (handleWelcomeConfigure h interaction) in
        let* _ := when (findsSubCommand "welcome-delete" subCommand)
                    (handleWelcomeDelete h interaction) in
        let* _ := when (findsSubCommand "welcome-view" subCommand)
                    (handleWelcomeView h interaction) in
        let* _ := when (findsSubCommand "goodbye-configure" subCommand)
                    (handleGoodbyeConfigure h interaction) in
        let* _ := when (findsSubCommand "goodbye-delete" subCommand)
                    (handleGoodbyeDelete h interaction) in
        when (findsSubCommand "goodbye-view" subCommand)
          (handleGoodbyeView h interaction)
    end.

(** The handler a sub-command name stands for, if any. *)
Definition handlerOf (h : Handlers) (n : string) : option (Interaction.t -> M unit) :=
  if String.eqb n "welcome-configure" then Some (handleWelcomeConfigure h)
  else if String.eqb n "welcome-delete" then Some (handleWelcomeDelete h)
  else if String.eqb n "welcome-view" then Some (handleWelcomeView h)
  else if String.eqb n "goodbye-configure" then Some (handleGoodbyeConfigure h)
  else if String.eqb n "goodbye-delete" then Some (handleGoodbyeDelete h)
  else if String.eqb n "goodbye-view" then Some (handleGoodbyeView h)
  else None.

End Automate.

(** *** The [tag] command *)

Module Tag.

Record TagT := { tag_name : string; tag_content : string }.

(** The tags plugin ([instance.collections.commands.plugins.tags]), whose
    code is in a file of its own: its state and the six methods the command
    calls.  [GetTagLimit] stands for the [limited] property of its result. *)
Record Plugin (S : Type) := {
  GetTagLimit : S -> string -> bool;
  GetTag : S -> string -> string -> option TagT;
  GetTags : S -> string -> list TagT;
  CreateTag : S -> string -> string -> string -> string -> string -> S * TagT;
  DeleteTag : S -> string -> string -> S;
  UpdateTag : S -> string -> string -> string -> S * TagT
}.
Arguments GetTagLimit {S} _ _ _.
Arguments GetTag {S} _ _ _ _.
Arguments GetTags {S} _ _ _.
Arguments CreateTag {S} _ _ _ _ _ _ _.
Arguments DeleteTag {S} _ _ _ _.
Arguments UpdateTag {S} _ _ _ _ _.

(** The contents of the follow-up messages, one per call site. *)
Inductive Followup :=
| NeedManageMessages           (* You need the following permissions: `Manage Messages` ... *)
| LimitReached                 (* You have reached the tag limit of `MAX_CREATED_TAGS`! ... *)
| AlreadyExists (n : string)   (* Tag `n` already exists! *)
| Created (n : string)         (* Tag `n` created! *)
| DoesNotExist (n : string)    (* Tag `n` doesn't exist! *)
| Deleted                      (* Tag deleted! *)
| Edited (n : string)          (* Tag `n` edited! *)
| NoTags                       (* Available tags: No Tags created for this server. ... *)
| Available (names : list string) (* Available tags: `a`, `b` *)
| Content (c : string)         (* the content of the tag *)
| TagNotFound                  (* Tag not found! *)
| InvalidSubcommand.           (* Invalid subcommand! *)

(** [interaction.member?.permissions.has(Permissions.MANAGE_MESSAGES)] *)
Definition mayManage (interaction : Interaction.t) : bool :=
  match member interaction with
  | Some held => has held ["MANAGE_MESSAGES"]
  | None => false
  end.

(** [run]: after the deferral, one follow-up or an error, and the state of
    the plugin afterwards.  [user_tag] is [interaction.user.tag];
    [interaction.guild!.id] throws outside a guild.  The deferral, the
    follow-up and the calls to the plugin are taken to succeed. *)
Definition run {S} (P : Plugin S) (d : OptionsData) (user_tag : string)
    (interaction : Interaction.t) (s : S) : Outcome Followup * S :=
  match getSubCommand d with
  | Thrown e => (Thrown e, s)
  | Returned subCommand =>
      match Interaction.guild interaction with
      | None => (Thrown "TypeError: Cannot read properties of null (reading 'id')", s)
      | Some guild_id =>
          let tagLimits := GetTagLimit P s guild_id in
          if findsSubCommand "create" subCommand then
            if negb (mayManage interaction) then (Returned NeedManageMessages, s)
            else
              match getString d "name" with
              | Thrown e => (Thrown e, s)
              | Returned name =>
                  match getString d "content" with
                  | Thrown e => (Thrown e, s)
                  | Returned content =>
                      if tagLimits then (Returned LimitReached, s)
                      else if truthy (GetTag P s guild_id name)
                      then (Returned (AlreadyExists name), s)
                      else
                        let r := CreateTag P s guild_id name content
                                   (user_id interaction) user_tag in
                        (Returned (Created (tag_name (snd r))), fst r)
                  end
              end
          else if findsSubCommand "delete" subCommand then
            if negb (mayManage interaction) then (Returned NeedManageMessages, s)
            else
              match getString d "name" with
              | Thrown e => (Thrown e, s)
              | Returned name =>
                  if negb (truthy (GetTag P s guild_id name))
                  then (Returned (DoesNotExist name), s)
                  else (Returned Deleted, DeleteTag P s guild_id name)
              end
          else if findsSubCommand "edit" subCommand then
            if negb (mayManage interaction) then (Returned NeedManageMessages, s)
            else
              match getString d "name" with
              | Thrown e => (Thrown e, s)
              | Returned name =>
                  match getString d "content" with
                  | Thrown e => (Thrown e, s)
                  | Returned content =>
                      if negb (truthy (GetTag P s guild_id name))
                      then (Returned (DoesNotExist name), s)
                      else
                        let r := UpdateTag P s guild_id name content in
                        (Returned (Edited (tag_name (snd r))), fst r)
                  end
              end
          else if findsSubCommand "list" subCommand then
            let tags := GetTags P s guild_id in
            let noTags := Nat.eqb (length tags) 0 in
            (Returned (if noTags then NoTags else Available (map tag_name tags)), s)
          else if findsSubCommand "view" subCommand then
            match getString d "name" with
            | Thrown e => (Thrown e, s)
            | Returned name =>
                (Returned (match GetTag P s guild_id name with
                           | Some tag => Content (tag_content tag)
                           | None => TagNotFound
                           end), s)
            end
          else (Returned InvalidSubcommand, s)
      end
  end.

(** The sub-commands that may write to the plugin. *)
Definition writes (subCommand : list string) : bool :=
  findsSubCommand "create" subCommand
  || findsSubCommand "delete" subCommand
  || findsSubCommand "edit" subCommand.

End Tag.

(** ** The code-jam plugin *)

Module Jam.

(** The document handed to [query.create] by [createCodeJam]; the source
    adds two empty lists to it, under [event_participants_id] and
    [event_managers_id]. *)
Record NewJam := {
  new_guild_id : string;
  new_name : string;
  new_description : string;
  new_event_role_id : option string;
  new_event_image_url : option string;
  new_scheduledStartTime : string;
  new_scheduledEndTime : string;
  new_entityType : string;
  new_created_by_name : string;
  new_created_by_id : string;
  new_created_at : Z
}.

(** The update documents of the plugin; each also sets [updated_at]. *)
Inductive Update :=
| SetName (name : string) (updated_at : Z)
| SetDescription (description : string) (updated_at : Z)
| SetEventRoleId (roleId : string) (updated_at : Z)
| PushParticipant (userId : string) (updated_at : Z)
| PullParticipant (userId : string) (updated_at : Z)
| PushManager (userId : string) (updated_at : Z)
| PullManager (userId : string) (updated_at : Z).

(** The database model ([instance.database.managers.jam]) and the document
    type [CodeJam], whose declarations are in files of their own: the
    properties of a document the plugin reads, and the queries it sends.
    [findOneAndUpdate] is always sent with [upsert] and [new], so it answers
    with a document. *)
Record Model (J Q : Type) := {
  guild_id : J -> string;
  event_role_id : J -> option string;
  event_participants_ids : J -> option (list string);
  event_managers_ids : J -> option (list string);
  find : Q -> list J;
  create : Q -> NewJam -> Q * J;
  findOne : Q -> string -> option J;
  findOneAndDelete : Q -> string -> Q;
  findOneAndUpdate : Q -> string -> Update -> Q * J
}.
Arguments guild_id {J Q} _ _.
Arguments event_role_id {J Q} _ _.
Arguments event_participants_ids {J Q} _ _.
Arguments event_managers_ids {J Q} _ _.
Arguments find {J Q} _ _.
Arguments create {J Q} _ _ _.
Arguments findOne {J Q} _ _ _.
Arguments findOneAndDelete {J Q} _ _ _.
Arguments findOneAndUpdate {J Q} _ _ _ _.

(** [CodeJamCommandPlugin]: the cache, the database behind [query], and the
    flag read from the configuration.  The queries are taken to succeed. *)
Record Plugin (J Q : Type) := {
  cache : gmap string J;
  query : Q;
  cachingDisabled : bool
}.
Arguments cache {J Q} _.
Arguments query {J Q} _.
Arguments cachingDisabled {J Q} _.

Section Methods.

Context {J Q : Type} (model : Model J Q).

Definition setCache (p : Plugin J Q) (c : gmap string J) : Plugin J Q :=
  {| cache := c; query := query p; cachingDisabled := cachingDisabled p |}.

Definition setQuery (p : Plugin J Q) (q : Q) : Plugin J Q :=
  {| cache := cache p; query := q; cachingDisabled := cachingDisabled p |}.

(** [if (!this.cachingDisabled) this.cache.set(guildId, jam);] *)
Definition remember (guildId : string) (jam : J) (p : Plugin J Q) : Plugin J Q :=
  if negb (cachingDisabled p) then setCache p (<[guildId := jam]> (cache p)) else p.

Definition init (p : Plugin J Q) : Plugin J Q :=
  if cachingDisabled p then p
  else
    let jams := find model (query p) in
    setCache p (fold_left (fun c jam => <[guild_id model jam := jam]> c) jams (cache p)).

Definition createCodeJam (guildId name description : string) (roleId image : option string)
    (start end_ entity createdBy createdById : string) (now : Z) (p : Plugin J Q)
    : J * Plugin J Q :=
  let r := create model (query p)
             {| new_guild_id := guildId; new_name := name;
                new_description := description; new_event_role_id := roleId;
                new_event_image_url := image; new_scheduledStartTime := start;
                new_scheduledEndTime := end_; new_entityType := entity;
                new_created_by_name := createdBy; new_created_by_id := createdById;
                new_created_at := now |} in
  (snd r, remember guildId (snd r) (setQuery p (fst r))).

Definition deleteCodeJam (guildId : string) (p : Plugin J Q) : Plugin J Q :=
  let p' := setQuery p (findOneAndDelete model (query p) guildId) in
  if negb (cachingDisabled p') then setCache p' (delete guildId (cache p')) else p'.

Definition getCodeJam (guildId : string) (p : Plugin J Q) : option J :=
  match (if negb (cachingDisabled p) then cache p !! guildId else None) with
  | Some jam => Some jam
  | None => findOne model (query p) guildId
  end.

(** The seven methods that send [findOneAndUpdate] and store its answer. *)
Definition update (guildId : string) (u : Update) (p : Plugin J Q) : Plugin J Q :=
  let r := findOneAndUpdate model (query p) guildId u in
  remember guildId (snd r) (setQuery p (fst r)).

Definition updateJamName (guildId name : string) (now : Z) :=
  update guildId (SetName name now).

Definition updateCodeJamDescription (guildId description : string) (now : Z) :=
  update guildId (SetDescription description now).

Definition setJamRole (guildId roleId : string) (now : Z) :=
  update guildId (SetEventRoleId roleId now).

Definition addJamParticipant (guildId userId : string) (now : Z) :=
  update guildId (PushParticipant userId now).

Definition removeJamParticipant (guildId userId : string) (now : Z) :=
  update guildId (PullParticipant userId now).

Definition addJamManager (guildId userId : string) (now : Z) :=
  update guildId (PushManager userId now).

Definition removeJamManager (guildId userId : string) (now : Z) :=
  update guildId (PullManager userId now).

(** The three getters of one property:
    [this.cache.get(guildId)?.property ?? null] with the cache, the same on
    the answer of [findOne] without. *)
Definition getProperty {A} (property : J -> option A) (guildId : string)
    (p : Plugin J Q) : option A :=
  if negb (cachingDisabled p)
  then match cache p !! guildId with
       | Some jam => property jam
       | None => None
       end
  else match findOne model (query p) guildId with
       | Some jam => property jam
       | None => None
       end.

Definition getJamRole := getProperty (event_role_id model).
Definition getJamParticipants := getProperty (event_participants_ids model).
Definition getJamManagers := getProperty (event_managers_ids model).

(** The calls that write, for sequences of them. *)
Inductive Call :=
| CallInit
| CallCreate (guildId name description : string) (roleId image : option string)
    (start end_ entity createdBy createdById : string) (now : Z)
| CallDelete (guildId : string)
| CallUpdate (guildId : string) (u : Update).

Definition call (p : Plugin J Q) (c : Call) : Plugin J Q :=
  match c with
  | CallInit => init p
  | CallCreate guildId name description roleId image start end_ entity createdBy
      createdById now =>
      snd (createCodeJam guildId name description roleId image start end_ entity
             createdBy createdById now p)
  | CallDelete guildId => deleteCodeJam guildId p
  | CallUpdate guildId u => update guildId u p
  end.

End Methods.

End Jam.

(** ** More of the small bot *)

Module Fixture.

(** The caller "u1" has used the one unit of manager 1 at time 500. *)
Definition w1 : World :=
  {| clock := 1000;
     managers := fun r =>
       match r with
       | 1%nat => Sample.managerOf 1
                    {[ "u1" := {| RateLimit.count := 1; RateLimit.windowStart := 500 |} ]}
       | _ => Sample.managerOf 5 ∅
       end;
     commands_executed := 7;
     commands_failed := 2 |}.

Definition support : Command :=
  {| disabled := false; superUserOnly := false; premiumOnly := false;
     helperUserOnly := true; requiredBotPermissions := None;
     requiredUserPermissions := None; ratelimit := None;
     run := fun _ => None |}.

Definition gold : Command :=
  {| disabled := false; superUserOnly := false; premiumOnly := true;
     helperUserOnly := false; requiredBotPermissions := None;
     requiredUserPermissions := None; ratelimit := None;
     run := fun _ => None |}.

Definition Main : MainT :=
  {| commandStoreMap :=
       <["support" := support]> (<["gold" := gold]> (commandStoreMap Sample.Main));
     isOwner := String.eqb "owner";
     isPremiumUser := String.eqb "patron" |}.


(** A store whose connection is down. *)
Definition storeDown : StatsStore :=
  {| update_rejects := fun _ => Some "MongoNetworkError: connection closed" |}.

Definition autocomplete (command user : string) : Interaction.t :=
  {| type := APPLICATION_COMMAND_AUTOCOMPLETE; name := command; user_id := user;
     guild := Some "g1"; appPermissions := Some ["SEND_MESSAGES"];
     member := Some ["SEND_MESSAGES"];
     createMessage_rejects := fun _ => None |}.

(** A tags plugin over a list of (guild, tag) pairs, two tags a guild. *)
Definition inGuild (g : string) (e : string * Tag.TagT) : bool := String.eqb (fst e) g.

Definition isTag (g n : string) (e : string * Tag.TagT) : bool :=
  String.eqb (fst e) g && String.eqb (Tag.tag_name (snd e)) n.

Definition tags : Tag.Plugin (list (string * Tag.TagT)) :=
  {| Tag.GetTagLimit := fun s g => (2 <=? length (filter (inGuild g) s))%nat;
     Tag.GetTag := fun s g n => option_map snd (List.find (isTag g n) s);
     Tag.GetTags := fun s g => map snd (filter (inGuild g) s);
     Tag.CreateTag := fun s g n c _ _ =>
       let t := {| Tag.tag_name := n; Tag.tag_content := c |} in
       ((s ++ [(g, t)])%list, t);
     Tag.DeleteTag := fun s g n => filter (fun e => negb (isTag g n e)) s;
     Tag.UpdateTag := fun s g n c =>
       let t := {| Tag.tag_name := n; Tag.tag_content := c |} in
       (map (fun e => if isTag g n e then (g, t) else e) s, t) |}.

Definition rulesTag : Tag.TagT :=
  {| Tag.tag_name := "rules"; Tag.tag_content := "Be kind." |}.

Definition oneTag : list (string * Tag.TagT) := [("g1", rulesTag)].

Definition options (path : list string) (strings : list (string * string)) : OptionsData :=
  {| subCommandPath := Some path; stringOptions := list_to_map strings |}.

(** A guild member who may manage messages. *)
Definition moderator (command user : string) : Interaction.t :=
  {| type := APPLICATION_COMMAND; name := command; user_id := user;
     guild := Some "g1"; appPermissions := Some ["SEND_MESSAGES"];
     member := Some ["SEND_MESSAGES"; "MANAGE_MESSAGES"];
     createMessage_rejects := fun _ => None |}.

(** Handlers of [automate] that only reply. *)
Definition replies (m : Message) (i : Interaction.t) : M unit := createMessage i m.

Definition handlers : Automate.Handlers :=
  {| Automate.handleWelcomeConfigure := replies (MsgErrorOccurred "welcome-configure");
     Automate.handleWelcomeView := replies (MsgErrorOccurred "welcome-view");
     Automate.handleWelcomeDelete := replies (MsgErrorOccurred "welcome-delete");
     Automate.handleGoodbyeConfigure := replies (MsgErrorOccurred "goodbye-configure");
     Automate.handleGoodbyeView := replies (MsgErrorOccurred "goodbye-view");
     Automate.handleGoodbyeDelete := replies (MsgErrorOccurred "goodbye-delete") |}.

(** A database of code jams kept as a list of documents. *)
Record JamDoc := {
  doc_guild : string;
  doc_name : string;
  doc_role : option string;
  doc_participants : list string;
  doc_managers : list string
}.

Definition forGuild (g : string) (j : JamDoc) : bool := String.eqb (doc_guild j) g.

Definition applyUpdate (u : Jam.Update) (j : JamDoc) : JamDoc :=
  match u with
  | Jam.SetName n _ =>
      {| doc_guild := doc_guild j; doc_name := n; doc_role := doc_role j;
         doc_participants := doc_participants j; doc_managers := doc_managers j |}
  | Jam.SetDescription _ _ => j
  | Jam.SetEventRoleId r _ =>
      {| doc_guild := doc_guild j; doc_name := doc_name j; doc_role := Some r;
         doc_participants := doc_participants j; doc_managers := doc_managers j |}
  | Jam.PushParticipant u _ =>
      {| doc_guild := doc_guild j; doc_name := doc_name j; doc_role := doc_role j;
         doc_participants := (doc_participants j ++ [u])%list;
         doc_managers := doc_managers j |}
  | Jam.PullParticipant u _ =>
      {| doc_guild := doc_guild j; doc_name := doc_name j; doc_role := doc_role j;
         doc_participants := filter (fun x => negb (String.eqb x u)) (doc_participants j);
         doc_managers := doc_managers j |}
  | Jam.PushManager u _ =>
      {| doc_guild := doc_guild j; doc_name := doc_name j; doc_role := doc_role j;
         doc_participants := doc_participants j;
         doc_managers := (doc_managers j ++ [u])%list |}
  | Jam.PullManager u _ =>
      {| doc_guild := doc_guild j; doc_name := doc_name j; doc_role := doc_role j;
         doc_participants := doc_participants j;
         doc_managers := filter (fun x => negb (String.eqb x u)) (doc_managers j) |}
  end.

Fixpoint updateFirst (g : string) (u : Jam.Update) (docs : list JamDoc)
    : list JamDoc * JamDoc :=
  match docs with
  | [] =>
      let j := applyUpdate u {| doc_guild := g; doc_name := ""; doc_role := None;
                                doc_participants := []; doc_managers := [] |} in
      ([j], j)
  | d :: rest =>
      if forGuild g d then (applyUpdate u d :: rest, applyUpdate u d)
      else let r := updateFirst g u rest in (d :: fst r, snd r)
  end.

Fixpoint deleteFirst (g : string) (docs : list JamDoc) : list JamDoc :=
  match docs with
  | [] => []
  | d :: rest => if forGuild g d then rest else d :: deleteFirst g rest
  end.

Definition jams : Jam.Model JamDoc (list JamDoc) :=
  {| Jam.guild_id := doc_guild;
     Jam.event_role_id := doc_role;
     Jam.event_participants_ids := fun j => Some (doc_participants j);
     Jam.event_managers_ids := fun j => Some (doc_managers j);
     Jam.find := fun q => q;
     Jam.create := fun q n =>
       let j := {| doc_guild := Jam.new_guild_id n; doc_name := Jam.new_name n;
                   doc_role := Jam.new_event_role_id n;
                   doc_participants := []; doc_managers := [] |} in
       ((q ++ [j])%list, j);
     Jam.findOne := fun q g => List.find (forGuild g) q;
     Jam.findOneAndDelete := fun q g => deleteFirst g q;
     Jam.findOneAndUpdate := fun q g u => updateFirst g u q |}.

Definition springJam : JamDoc :=
  {| doc_guild := "g1"; doc_name := "Spring Jam"; doc_role := Some "role-7";
     doc_participants := ["u1"]; doc_managers := [] |}.

(** A plugin whose database holds a jam that the cache has not loaded. *)
Definition cold : Jam.Plugin JamDoc (list JamDoc) :=
  {| Jam.cache := ∅; Jam.query := [springJam]; Jam.cachingDisabled := false |}.

Definition uncached : Jam.Plugin JamDoc (list JamDoc) :=
  {| Jam.cache := ∅; Jam.query := [springJam]; Jam.cachingDisabled := true |}.

End Fixture.

(** * Properties *)

(** ** The rate-limit library: what an acquisition preserves *)

Module RateLimitFacts.
Import RateLimit.

Lemma refresh_idempotent m now b :
  refresh m now (refresh m now b) = refresh m now b.
Proof.
  unfold refresh. destruct (expired m now b) eqn:E.
  - clear E. destruct (expired m now _); reflexivity.
  - now rewrite E.
Qed.

(** An acquisition changes no identifier's bucket as seen through the
    expiry check: it is a check, not a commit. *)
Lemma current_acquire m now id id' :
  current (fst (acquire m now id)) now id' = current m now id'.
Proof.
  unfold acquire, current at 1. cbn [fst buckets setBuckets].
  destruct (decide (id = id')) as [->|Hne].
  - rewrite lookup_insert_eq. cbn [default].
    change (refresh (setBuckets m (<[id':=current m now id']> (buckets m))) now)
      with (refresh m now).
    unfold current. apply refresh_idempotent.
  - rewrite lookup_insert_ne by exact Hne. reflexivity.
Qed.

Lemma countAt_acquire m now id id' :
  countAt (fst (acquire m now id)) now id' = countAt m now id'.
Proof. unfold countAt. now rewrite current_acquire. Qed.

Lemma view_acquire m now id id' :
  snd (acquire (fst (acquire m now id)) now id') = snd (acquire m now id').
Proof.
  unfold acquire at 1 3. cbn [snd]. rewrite current_acquire. reflexivity.
Qed.

(** A stored bucket, after an acquisition, is either the stored bucket of
    before or a bucket with nothing consumed. *)
Lemma buckets_acquire m now id id' b' :
  buckets (fst (acquire m now id)) !! id' = Some b' ->
  count b' = 0%nat \/ buckets m !! id' = Some b'.
Proof.
  unfold acquire. cbn [fst buckets setBuckets].
  destruct (decide (id = id')) as [->|Hne].
  - rewrite lookup_insert_eq. intros [= <-].
    unfold current, refresh.
    destruct (buckets m !! id') as [b|]; cbn [default from_option Datatypes.id].
    + destruct (expired m now b); [left | right]; reflexivity.
    + unfold fresh. destruct (expired m now _); left; reflexivity.
  - rewrite lookup_insert_ne by exact Hne. now right.
Qed.

(** A consumption counts one unit in the current window. *)
Lemma countAt_consume m now id :
  0 < windowDurationMs m ->
  countAt (consume m now id) now id = S (countAt m now id).
Proof.
  intros Hd. unfold countAt, consume, current at 1.
  cbn [buckets setBuckets]. rewrite lookup_insert_eq. cbn [default].
  assert (Hw : now < windowStart (current m now id) + windowDurationMs m).
  { unfold current, refresh.
    destruct (expired m now _) eqn:E; cbn [windowStart]; [lia|].
    unfold expired in E. apply Z.leb_gt in E. lia. }
  unfold refresh, expired.
  cbn [default from_option Datatypes.id windowStart windowDurationMs setBuckets].
  destruct (Z.leb_spec (windowStart (current m now id) + windowDurationMs m) now);
    [lia | reflexivity].
Qed.

End RateLimitFacts.

(** ** The monad: traces determine worlds *)

Section MonadFacts.

Context {A B : Type}.

Lemma Sound_ret (a : A) : Sound (ret a).
Proof. intros w. reflexivity. Qed.

Lemma Sound_throw (e : string) : Sound (@throw A e).
Proof. intros w. reflexivity. Qed.

Lemma Sound_bind (c : M A) (k : A -> M B) :
  Sound c -> (forall a, Sound (k a)) -> Sound (bind c k).
Proof.
  intros Hc Hk w. unfold bind.
  destruct (outcome (c w)) as [a|e] eqn:E; cbn [world trace].
  - rewrite fold_left_app, <- Hc. apply Hk.
  - apply Hc.
Qed.

Lemma Sound_try_catch (c : M A) (h : string -> M A) :
  Sound c -> (forall e, Sound (h e)) -> Sound (try_catch c h).
Proof.
  intros Hc Hh w. unfold try_catch.
  destruct (outcome (c w)) as [a|e] eqn:E; cbn [world trace].
  - apply Hc.
  - rewrite fold_left_app, <- Hc. apply Hh.
Qed.

Lemma Emits_ret P (a : A) : Emits P (ret a).
Proof. intros w. reflexivity. Qed.

Lemma Emits_throw P (e : string) : Emits P (@throw A e).
Proof. intros w. reflexivity. Qed.

Lemma Emits_bind P (c : M A) (k : A -> M B) :
  Emits P c -> (forall a, Emits P (k a)) -> Emits P (bind c k).
Proof.
  intros Hc Hk w. unfold bind.
  destruct (outcome (c w)) as [a|e] eqn:E; cbn [trace].
  - rewrite forallb_app, Hc, Hk. reflexivity.
  - apply Hc.
Qed.

Lemma Emits_try_catch P (c : M A) (h : string -> M A) :
  Emits P c -> (forall e, Emits P (h e)) -> Emits P (try_catch c h).
Proof.
  intros Hc Hh w. unfold try_catch.
  destruct (outcome (c w)) as [a|e] eqn:E; cbn [trace].
  - apply Hc.
  - rewrite forallb_app, Hc, Hh. reflexivity.
Qed.

End MonadFacts.

Lemma Sound_emit e : replay_inert e = true -> Sound (emit e).
Proof. intros H w. destruct e; try discriminate H; reflexivity. Qed.

Lemma Sound_acquire s r id : Sound (acquire s r id).
Proof. intros w. reflexivity. Qed.

Lemma Sound_consume s h : Sound (consume s h).
Proof. intros w. reflexivity. Qed.

Lemma Sound_incExecuted : Sound incExecuted.
Proof. intros w. reflexivity. Qed.

Lemma Sound_incFailed : Sound incFailed.
Proof. intros w. reflexivity. Qed.

Lemma Sound_createMessage i m : Sound (createMessage i m).
Proof.
  unfold createMessage. apply Sound_bind; [now apply Sound_emit|].
  intros _. destruct (createMessage_rejects i m); [apply Sound_throw | apply Sound_ret].
Qed.

Lemma Emits_emit P e : P e = true -> Emits P (emit e).
Proof. intros H w. cbn. now rewrite H. Qed.

Lemma Emits_createMessage P i m : P (Reply m) = true -> Emits P (createMessage i m).
Proof.
  intros H. unfold createMessage. apply Emits_bind; [now apply Emits_emit|].
  intros _. destruct (createMessage_rejects i m); [apply Emits_throw | apply Emits_ret].
Qed.

Create HintDb sound.
Create HintDb emits.

#[local] Hint Resolve Sound_ret Sound_throw Sound_acquire Sound_consume
  Sound_incExecuted Sound_incFailed Sound_createMessage : sound.
#[local] Hint Resolve Emits_ret Emits_throw : emits.

(** ** Replaying traces *)

Section ReplayFacts.

Lemma upd_same ms r m : upd ms r m r = m.
Proof. unfold upd. now rewrite Nat.eqb_refl. Qed.

Lemma upd_other ms r m r' : r <> r' -> upd ms r m r' = ms r'.
Proof. intros H. unfold upd. apply Nat.eqb_neq in H. now rewrite H. Qed.

Lemma replay_clock l : forall w, clock (fold_left replay l w) = clock w.
Proof.
  induction l as [|e l IH]; intros w; cbn [fold_left]; [reflexivity|].
  rewrite IH. destruct e; reflexivity.
Qed.

(** One step: a call other than a consumption leaves every count of the
    current window as it was, and creates or resets buckets only to
    count 0. *)
Lemma replay_step_countAt e w r id :
  notConsume e = true ->
  RateLimit.countAt (managers (replay w e) r) (clock w) id
  = RateLimit.countAt (managers w r) (clock w) id.
Proof.
  destruct e as [s r0 id0| | | | | | |]; try discriminate; intros _; try reflexivity.
  cbn [replay managers setManagers].
  destruct (Nat.eq_dec r0 r) as [->|Hne].
  - rewrite upd_same. apply RateLimitFacts.countAt_acquire.
  - now rewrite upd_other.
Qed.

Lemma replay_step_buckets e w r id b' :
  notConsume e = true ->
  RateLimit.buckets (managers (replay w e) r) !! id = Some b' ->
  RateLimit.count b' = 0%nat \/ RateLimit.buckets (managers w r) !! id = Some b'.
Proof.
  destruct e as [s r0 id0| | | | | | |]; try discriminate; intros _; try (now right).
  cbn [replay managers setManagers].
  destruct (Nat.eq_dec r0 r) as [->|Hne].
  - rewrite upd_same. apply RateLimitFacts.buckets_acquire.
  - rewrite upd_other by exact Hne. now right.
Qed.

Lemma replay_countAt l : forall w r id,
  forallb notConsume l = true ->
  RateLimit.countAt (managers (fold_left replay l w) r) (clock w) id
  = RateLimit.countAt (managers w r) (clock w) id.
Proof.
  induction l as [|e l IH]; intros w r id H; cbn [fold_left]; [reflexivity|].
  cbn [forallb] in H. apply andb_true_iff in H as [He Hl].
  rewrite <- (replay_step_countAt e w r id He).
  replace (clock w) with (clock (replay w e)) by (destruct e; reflexivity).
  now apply IH.
Qed.

Lemma replay_buckets l : forall w r id b',
  forallb notConsume l = true ->
  RateLimit.buckets (managers (fold_left replay l w) r) !! id = Some b' ->
  RateLimit.count b' = 0%nat \/ RateLimit.buckets (managers w r) !! id = Some b'.
Proof.
  induction l as [|e l IH]; intros w r id b' H Hb; cbn [fold_left] in Hb; [now right|].
  cbn [forallb] in H. apply andb_true_iff in H as [He Hl].
  destruct (IH _ _ _ _ Hl Hb) as [H0|Hprev]; [now left|].
  now apply (replay_step_buckets e w r id b').
Qed.

Lemma replay_managers l : forall w,
  forallb notRateLimitCall l = true ->
  managers (fold_left replay l w) = managers w.
Proof.
  induction l as [|e l IH]; intros w H; cbn [fold_left]; [reflexivity|].
  cbn [forallb] in H. apply andb_true_iff in H as [He Hl].
  rewrite IH by exact Hl. destruct e; try discriminate He; reflexivity.
Qed.

Lemma replay_stats l : forall w,
  forallb notStats l = true ->
  commands_executed (fold_left replay l w) = commands_executed w
  /\ commands_failed (fold_left replay l w) = commands_failed w.
Proof.
  induction l as [|e l IH]; intros w H; cbn [fold_left]; [now split|].
  cbn [forallb] in H. apply andb_true_iff in H as [He Hl].
  destruct (IH (replay w e) Hl) as [-> ->].
  destruct e; try discriminate He; now split.
Qed.

Context {A : Type} (c : M A).
Hypothesis c_sound : Sound c.

Lemma Sound_clock w : clock (world (c w)) = clock w.
Proof. rewrite c_sound. apply replay_clock. Qed.

Lemma Sound_countAt w r id :
  Emits notConsume c ->
  RateLimit.countAt (managers (world (c w)) r) (clock w) id
  = RateLimit.countAt (managers w r) (clock w) id.
Proof. intros H. rewrite c_sound. apply replay_countAt, H. Qed.

Lemma Sound_buckets w r id b' :
  Emits notConsume c ->
  RateLimit.buckets (managers (world (c w)) r) !! id = Some b' ->
  RateLimit.count b' = 0%nat \/ RateLimit.buckets (managers w r) !! id = Some b'.
Proof. intros H. rewrite c_sound. apply replay_buckets, H. Qed.

Lemma Sound_managers w :
  forallb notRateLimitCall (trace (c w)) = true ->
  managers (world (c w)) = managers w.
Proof. intros H. rewrite c_sound. now apply replay_managers. Qed.

Lemma Sound_stats w :
  forallb notStats (trace (c w)) = true ->
  commands_executed (world (c w)) = commands_executed w
  /\ commands_failed (world (c w)) = commands_failed w.
Proof. intros H. rewrite c_sound. now apply replay_stats. Qed.

End ReplayFacts.

(** ** The dispatcher: soundness of its trace *)

Section DispatcherFacts.

Variable Main : MainT.
Variable config : Config.

Lemma Sound_acquire_opt s mgr id : Sound (acquire_opt s mgr id).
Proof.
  destruct mgr; cbn [acquire_opt]; auto with sound.
  apply Sound_bind; auto with sound.
Qed.

Lemma Sound_consume_opt s h : Sound (consume_opt s h).
Proof. destruct h; cbn [consume_opt]; auto with sound. Qed.

Lemma Sound_scopeBlock s configured h reply : Sound (scopeBlock s configured h reply).
Proof.
  unfold scopeBlock. destruct (truthy configured).
  - destruct (limited_opt h); auto with sound.
  - apply Sound_bind; [apply Sound_consume_opt | auto with sound].
Qed.

Lemma Sound_unlessRejected c k : Sound c -> Sound k -> Sound (unlessRejected c k).
Proof.
  intros Hc Hk. unfold unlessRejected. apply Sound_bind; [exact Hc|].
  intros [m|]; auto with sound.
Qed.

Lemma Sound_checkRatelimit rl i : Sound (checkRatelimit rl i).
Proof.
  unfold checkRatelimit.
  apply Sound_bind; [apply Sound_acquire_opt | intros GlobalRateLimit].
  apply Sound_bind; [apply Sound_acquire_opt | intros UserRateLimit].
  repeat apply Sound_unlessRejected; try apply Sound_scopeBlock.
  destruct (Interaction.guild i); auto with sound.
  apply Sound_bind; [apply Sound_acquire_opt | intros; apply Sound_scopeBlock].
Qed.

Lemma Sound_runHandler c i : Sound (runHandler c i).
Proof.
  unfold runHandler. apply Sound_bind; [now apply Sound_emit|].
  intros _. destruct (run c i); auto with sound.
Qed.

Lemma Sound_processCommandInteraction i : Sound (processCommandInteraction Main i).
Proof.
  unfold processCommandInteraction.
  destruct (authorize Main _ i); auto with sound.
  apply Sound_bind.
  - destruct (prop ratelimit _); auto with sound.
    destruct (negb _); auto with sound. apply Sound_checkRatelimit.
  - intros [m|]; auto with sound.
    destruct (commandStoreMap Main !! name i); auto with sound.
    apply Sound_runHandler.
Qed.

Lemma Sound_interactionCreate i : Sound (interactionCreate Main config i).
Proof.
  unfold interactionCreate. apply Sound_bind.
  - destruct (type i); auto with sound.
    apply Sound_try_catch.
    + apply Sound_bind.
      * destruct (IsInDevelopmentMode config); auto with sound.
        now apply Sound_emit.
      * intros _. apply Sound_bind; auto with sound.
        intros _. apply Sound_processCommandInteraction.
    + intros e. apply Sound_bind; [now apply Sound_emit|].
      intros _. apply Sound_bind.
      * apply Sound_try_catch; auto with sound.
      * intros _. destruct (negb _); auto with sound.
  - intros _. destruct (type i); auto with sound; now apply Sound_emit.
Qed.

(** *** The calls of the rate-limit step

    The consume branch of a scope is taken only when the scope has no
    manager, and then there is no bucket to consume: the step makes
    acquisitions only. *)

Lemma outcome_acquire_opt s mgr id w :
  exists h, outcome (acquire_opt s mgr id w) = Returned h /\ truthy h = truthy mgr.
Proof. destruct mgr; cbn; eauto. Qed.

Lemma Emits_acquire_opt s mgr id : Emits notConsume (acquire_opt s mgr id).
Proof. intros w. destruct mgr; reflexivity. Qed.

Lemma Emits_scopeBlock s configured h reply :
  truthy h = truthy configured ->
  Emits notConsume (scopeBlock s configured h reply).
Proof.
  intros Hh w. unfold scopeBlock.
  destruct configured, h; try discriminate Hh; cbn [truthy].
  - destruct (limited_opt _); reflexivity.
  - reflexivity.
Qed.

Lemma Emits_unlessRejected P c k :
  Emits P c -> Emits P k -> Emits P (unlessRejected c k).
Proof.
  intros Hc Hk. unfold unlessRejected. apply Emits_bind; [exact Hc|].
  intros [m|]; auto with emits.
Qed.

Lemma Emits_checkRatelimit rl i : Emits notConsume (checkRatelimit rl i).
Proof.
  intros w. unfold checkRatelimit, bind at 1.
  destruct (outcome_acquire_opt ScopeGlobal (Ratelimit.global rl) (name i) w)
    as (hg & -> & Hg).
  cbn [outcome world trace]. rewrite forallb_app, Emits_acquire_opt. cbn [andb].
  set (w1 := world _). unfold bind at 1.
  destruct (outcome_acquire_opt ScopeUser (Ratelimit.user rl) (user_id i) w1)
    as (hu & -> & Hu).
  cbn [outcome world trace]. rewrite forallb_app, Emits_acquire_opt. cbn [andb].
  apply Emits_unlessRejected; [now apply Emits_scopeBlock|].
  apply Emits_unlessRejected; [|now apply Emits_scopeBlock].
  destruct (Interaction.guild i) as [guild_id|]; auto with emits.
  intros w2. unfold bind at 1.
  destruct (outcome_acquire_opt ScopeGuild (Ratelimit.guild rl) guild_id w2)
    as (hgu & -> & Hgu).
  cbn [outcome world trace]. rewrite forallb_app, Emits_acquire_opt. cbn [andb].
  now apply Emits_scopeBlock.
Qed.

Lemma Emits_processCommandInteraction i :
  Emits notConsume (processCommandInteraction Main i).
Proof.
  unfold processCommandInteraction.
  destruct (authorize Main _ i); [now apply Emits_createMessage|].
  apply Emits_bind.
  - destruct (prop ratelimit _); auto with emits.
    destruct (negb _); auto with emits. apply Emits_checkRatelimit.
  - intros [m|]; [now apply Emits_createMessage|].
    destruct (commandStoreMap Main !! name i); [|now apply Emits_createMessage].
    unfold runHandler. apply Emits_bind; [now apply Emits_emit|].
    intros _. destruct (run _ i); auto with emits.
Qed.

Lemma Emits_interactionCreate_from P i :
  P LogDebug = true -> P IncExecuted = true -> P IncFailed = true ->
  (forall e, P (LogError e) = true) -> (forall m, P (Reply m) = true) ->
  Emits P (processCommandInteraction Main i) ->
  Emits P (interactionCreate Main config i).
Proof.
  intros Hd He Hf Hl Hr Hp.
  unfold interactionCreate. apply Emits_bind.
  - destruct (type i); auto with emits.
    apply Emits_try_catch.
    + apply Emits_bind.
      * destruct (IsInDevelopmentMode config); auto with emits.
        now apply Emits_emit.
      * intros _. apply Emits_bind; [intros w; cbn; now rewrite He|].
        intros _. exact Hp.
    + intros e. apply Emits_bind; [now apply Emits_emit|].
      intros _. apply Emits_bind.
      * apply Emits_try_catch; auto with emits. now apply Emits_createMessage.
      * intros _. destruct (negb _); auto with emits. intros w; cbn; now rewrite Hf.
  - intros _. destruct (type i); auto with emits; now apply Emits_emit.
Qed.

Lemma Emits_interactionCreate i :
  Emits notConsume (interactionCreate Main config i).
Proof.
  apply Emits_interactionCreate_from; try reflexivity.
  apply Emits_processCommandInteraction.
Qed.

(** The rate-limit step makes calls to rate-limit managers only. *)
Lemma Emits_checkRatelimit_calls P rl i :
  (forall e, isRateLimitCall e = true -> P e = true) ->
  Emits P (checkRatelimit rl i).
Proof.
  intros HP. unfold checkRatelimit.
  assert (Ha : forall s mgr id, Emits P (acquire_opt s mgr id)).
  { intros s [r|] id w; [|reflexivity]. cbn. now rewrite HP. }
  assert (Hb : forall s cfg h reply, Emits P (scopeBlock s cfg h reply)).
  { intros s cfg h reply w. unfold scopeBlock.
    destruct (truthy cfg); [destruct (limited_opt h); reflexivity|].
    destruct h; [|reflexivity]. cbn. now rewrite HP. }
  apply Emits_bind; [apply Ha | intros GlobalRateLimit].
  apply Emits_bind; [apply Ha | intros UserRateLimit].
  repeat apply Emits_unlessRejected; try apply Hb.
  destruct (Interaction.guild i); auto with emits.
  apply Emits_bind; [apply Ha | intros; apply Hb].
Qed.

(** The rate-limit step and the replies leave the statistics alone. *)
Lemma Emits_processCommandInteraction_notStats i :
  Emits notStats (processCommandInteraction Main i).
Proof.
  unfold processCommandInteraction.
  destruct (authorize Main _ i); [now apply Emits_createMessage|].
  apply Emits_bind.
  - destruct (prop ratelimit _) as [rl|]; auto with emits.
    destruct (negb _); auto with emits.
    apply Emits_checkRatelimit_calls. now intros [].
  - intros [m|]; [now apply Emits_createMessage|].
    destruct (commandStoreMap Main !! name i); [|now apply Emits_createMessage].
    unfold runHandler. apply Emits_bind; [now apply Emits_emit|].
    intros _. destruct (run _ i); auto with emits.
Qed.

Lemma processCommandInteraction_stats i w :
  commands_executed (world (processCommandInteraction Main i w)) = commands_executed w
  /\ commands_failed (world (processCommandInteraction Main i w)) = commands_failed w.
Proof.
  apply Sound_stats; [apply Sound_processCommandInteraction|].
  apply Emits_processCommandInteraction_notStats.
Qed.

(** An owner's invocation makes no call to a rate-limit manager. *)
Lemma Emits_processCommandInteraction_owner i :
  isOwner Main (user_id i) = true ->
  Emits notRateLimitCall (processCommandInteraction Main i).
Proof.
  intros Ho. unfold processCommandInteraction. rewrite Ho. cbn [negb].
  destruct (authorize Main _ i); [now apply Emits_createMessage|].
  apply Emits_bind.
  - destruct (prop ratelimit _); auto with emits.
  - intros [m|]; [now apply Emits_createMessage|].
    destruct (commandStoreMap Main !! name i); [|now apply Emits_createMessage].
    unfold runHandler. apply Emits_bind; [now apply Emits_emit|].
    intros _. destruct (run _ i); auto with emits.
Qed.

End DispatcherFacts.


(** ** The authorization gate *)

Section Gate.

Variable Main : MainT.

Lemma authorize_chain command i :
  authorize Main command i =
  match firstRejection (earlierChecks Main) command i with
  | Some m => Some m
  | None => checkUserPermissions Main command i
  end.
Proof.
  unfold authorize, gateChain, earlierChecks. cbn [firstRejection].
  repeat match goal with
         | |- context [match ?c command i with _ => _ end] =>
             destruct (c command i); try reflexivity
         end.
Qed.

(** A rejection of the gate is the only reply, and the handler does not
    run. *)
Lemma rejected_trace command i m w :
  command = commandStoreMap Main !! name i ->
  authorize Main command i = Some m ->
  trace (processCommandInteraction Main i w) = [Reply m].
Proof.
  intros -> H. unfold processCommandInteraction. rewrite H.
  unfold createMessage, bind. cbn.
  destruct (createMessage_rejects i m); reflexivity.
Qed.

End Gate.

(** ** The claims about the gate *)

(** C8: a command name that is absent from the registry is answered with the
    "command could not be found" reply; no authorization check fires, no
    rate-limit manager is acquired or consumed, the handler is not invoked,
    and the world is left as it was. *)
Theorem unknown_command_not_found (Main : MainT) (i : Interaction.t) (w : World) :
  commandStoreMap Main !! name i = None ->
  Forall (fun check : Check => check None i = None) (gateChain Main)
  /\ authorize Main (commandStoreMap Main !! name i) i = None
  /\ trace (processCommandInteraction Main i w) = [Reply MsgCommandNotFound]
  /\ world (processCommandInteraction Main i w) = w.
Proof.
  intros Hnone.
  assert (Ha : authorize Main None i = None) by reflexivity.
  split; [repeat constructor|].
  rewrite Hnone. split; [exact Ha|].
  unfold processCommandInteraction. rewrite Hnone, Ha. cbn [prop].
  unfold createMessage, bind. cbn.
  destruct (createMessage_rejects i MsgCommandNotFound); split; reflexivity.
Qed.

Lemma unknown_command_not_found_witness :
  commandStoreMap Sample.Main !! name (Sample.slash "nope" "u1") = None
  /\ trace (processCommandInteraction Sample.Main (Sample.slash "nope" "u1") Sample.w0)
     = [Reply MsgCommandNotFound].
Proof.
  assert (H : commandStoreMap Sample.Main !! name (Sample.slash "nope" "u1") = None)
    by (vm_compute; reflexivity).
  split; [exact H|].
  exact (proj1 (proj2 (proj2
    (unknown_command_not_found Sample.Main (Sample.slash "nope" "u1") Sample.w0 H)))).
Defined.

(** C6: a command that is both disabled and owner-only, called by someone
    who is not the owner, is rejected by the disabled check: the one reply is
    the disabled message, never the owner-only message, and the handler is
    not invoked. *)
Theorem disabled_reported_before_owner_only (Main : MainT) (i : Interaction.t)
    (w : World) (c : Command) :
  commandStoreMap Main !! name i = Some c ->
  disabled c = true ->
  superUserOnly c = true ->
  isOwner Main (user_id i) = false ->
  authorize Main (Some c) i = Some MsgDisabled
  /\ trace (processCommandInteraction Main i w) = [Reply MsgDisabled]
  /\ ~ In (Reply MsgOwnerOnly) (trace (processCommandInteraction Main i w)).
Proof.
  intros Hc Hd Hs Ho.
  assert (Ha : authorize Main (Some c) i = Some MsgDisabled).
  { unfold authorize, gateChain. cbn [firstRejection].
    unfold checkDisabled. cbn [flag]. now rewrite Hd, Ho. }
  split; [exact Ha|].
  rewrite (rejected_trace Main (Some c) i MsgDisabled w (eq_sym Hc) Ha).
  split; [reflexivity|].
  intros [H|[]]. discriminate H.
Qed.

Lemma disabled_reported_before_owner_only_witness :
  trace (processCommandInteraction Sample.Main (Sample.slash "secret" "u1") Sample.w0)
  = [Reply MsgDisabled].
Proof.
  refine (proj1 (proj2 (disabled_reported_before_owner_only Sample.Main
            (Sample.slash "secret" "u1") Sample.w0 Sample.secret _ _ _ _)));
    vm_compute; reflexivity.
Defined.

(** C10: when the command declares [requiredUserPermissions], the caller is
    not the owner and the interaction has no guild member, the
    user-permissions check rejects with the missing-permissions message
    whatever the required list is; the invocation never reaches the handler,
    and unless an earlier check has already rejected, that message is the
    reply. *)
Theorem no_member_fails_user_permissions (Main : MainT) (i : Interaction.t)
    (w : World) (c : Command) (required : list Permission) :
  commandStoreMap Main !! name i = Some c ->
  requiredUserPermissions c = Some required ->
  member i = None ->
  isOwner Main (user_id i) = false ->
  checkUserPermissions Main (Some c) i = Some (MsgMissingUserPermissions required)
  /\ forallb (fun e => negb (isRunHandler e)) (trace (processCommandInteraction Main i w)) = true
  /\ (firstRejection (earlierChecks Main) (Some c) i = None ->
      trace (processCommandInteraction Main i w) = [Reply (MsgMissingUserPermissions required)]).
Proof.
  intros Hc Hr Hm Ho.
  assert (Hu : checkUserPermissions Main (Some c) i = Some (MsgMissingUserPermissions required)).
  { unfold checkUserPermissions. cbn [prop]. now rewrite Hr, Ho, Hm. }
  split; [exact Hu|].
  pose proof (authorize_chain Main (Some c) i) as Ha. rewrite Hu in Ha.
  split.
  - destruct (firstRejection (earlierChecks Main) (Some c) i) as [m|];
      rewrite (rejected_trace Main (Some c) i _ w (eq_sym Hc) Ha); reflexivity.
  - intros He. rewrite He in Ha.
    apply (rejected_trace Main (Some c) i _ w (eq_sym Hc) Ha).
Qed.

Lemma no_member_fails_user_permissions_witness :
  trace (processCommandInteraction Sample.Main (Sample.direct "automate" "u1") Sample.w0)
  = [Reply (MsgMissingUserPermissions ["SEND_MESSAGES"; "MANAGE_GUILD"])].
Proof.
  refine (proj2 (proj2 (no_member_fails_user_permissions Sample.Main
            (Sample.direct "automate" "u1") Sample.w0 Sample.automate
            ["SEND_MESSAGES"; "MANAGE_GUILD"] _ _ _ _)) _);
    vm_compute; reflexivity.
Defined.

(** C4, as stated, fails: the owner invokes a command that requires
    EMBED_LINKS where the bot may only send messages, and is rejected by the
    bot-permissions check. *)
Lemma owner_rejected_by_bot_permissions :
  isOwner Sample.Main (user_id (Sample.slash "embed" "owner")) = true
  /\ authorize Sample.Main (Some Sample.embed) (Sample.slash "embed" "owner")
     = Some (MsgMissingBotPermissions ["EMBED_LINKS"])
  /\ trace (processCommandInteraction Sample.Main (Sample.slash "embed" "owner") Sample.w0)
     = [Reply (MsgMissingBotPermissions ["EMBED_LINKS"])].
Proof. vm_compute. repeat split; reflexivity. Qed.

(** C4, amended: for the owner the disabled, owner-only, premium-only,
    helper-only and user-permissions checks never reject; the gate's verdict
    for the owner is the verdict of the bot-permissions check alone, so the
    owner passes the gate exactly when the command requires no bot
    permission or the bot holds all of them. *)
Theorem owner_bypasses_all_but_bot_permissions (Main : MainT)
    (command : option Command) (i : Interaction.t) :
  isOwner Main (user_id i) = true ->
  checkDisabled Main command i = None
  /\ checkSuperUserOnly Main command i = None
  /\ checkPremiumOnly Main command i = None
  /\ checkHelperUserOnly Main command i = None
  /\ checkUserPermissions Main command i = None
  /\ authorize Main command i = checkBotPermissions command i
  /\ (authorize Main command i = None <->
      match prop requiredBotPermissions command with
      | Some required => has_opt (appPermissions i) required = true
      | None => True
      end).
Proof.
  intros Ho.
  assert (H1 : checkDisabled Main command i = None)
    by (unfold checkDisabled; rewrite Ho, andb_false_r; reflexivity).
  assert (H2 : checkSuperUserOnly Main command i = None)
    by (unfold checkSuperUserOnly; rewrite Ho, andb_false_r; reflexivity).
  assert (H3 : checkPremiumOnly Main command i = None)
    by (unfold checkPremiumOnly; rewrite Ho, andb_false_r; reflexivity).
  assert (H4 : checkHelperUserOnly Main command i = None)
    by (unfold checkHelperUserOnly; rewrite Ho, andb_false_r; reflexivity).
  assert (H6 : checkUserPermissions Main command i = None)
    by (unfold checkUserPermissions; rewrite Ho;
        destruct (prop requiredUserPermissions command); reflexivity).
  assert (Ha : authorize Main command i = checkBotPermissions command i).
  { unfold authorize, gateChain. cbn [firstRejection].
    rewrite H1, H2, H3, H4, H6. destruct (checkBotPermissions command i); reflexivity. }
  repeat (split; [assumption|]).
  rewrite Ha. unfold checkBotPermissions.
  destruct (prop requiredBotPermissions command) as [required|]; [|tauto].
  destruct (has_opt (appPermissions i) required); cbn [negb]; split;
    intros H; try reflexivity; discriminate H.
Qed.

Lemma owner_bypasses_all_but_bot_permissions_witness :
  authorize Sample.Main (Some Sample.secret) (Sample.slash "secret" "owner") = None.
Proof.
  refine (proj2 (proj2 (proj2 (proj2 (proj2 (proj2 (proj2
    (owner_bypasses_all_but_bot_permissions Sample.Main (Some Sample.secret)
       (Sample.slash "secret" "owner") _))))))) I).
  vm_compute; reflexivity.
Defined.

(** C9: when the caller is the owner the rate-limit step is skipped: the
    invocation makes no acquire and no consume call, for no scope, and every
    rate-limit manager is left exactly as it was. *)
Theorem owner_skips_ratelimit (Main : MainT) (config : Config) (i : Interaction.t)
    (w : World) :
  isOwner Main (user_id i) = true ->
  forallb notRateLimitCall (trace (processCommandInteraction Main i w)) = true
  /\ managers (world (processCommandInteraction Main i w)) = managers w
  /\ forallb notRateLimitCall (trace (interactionCreate Main config i w)) = true
  /\ managers (world (interactionCreate Main config i w)) = managers w.
Proof.
  intros Ho.
  pose proof (Emits_processCommandInteraction_owner Main i Ho) as Hp.
  assert (Hi : Emits notRateLimitCall (interactionCreate Main config i))
    by (apply Emits_interactionCreate_from; try reflexivity; exact Hp).
  repeat split.
  - apply Hp.
  - apply Sound_managers; [apply Sound_processCommandInteraction | apply Hp].
  - apply Hi.
  - apply Sound_managers; [apply Sound_interactionCreate | apply Hi].
Qed.

Lemma owner_skips_ratelimit_witness :
  isOwner Sample.Main (user_id (Sample.slash "ping" "owner")) = true
  /\ managers (world (interactionCreate Sample.Main Sample.production
                        (Sample.slash "ping" "owner") Sample.w0))
     = managers Sample.w0.
Proof.
  assert (H : isOwner Sample.Main (user_id (Sample.slash "ping" "owner")) = true)
    by reflexivity.
  split; [exact H|].
  exact (proj2 (proj2 (proj2 (owner_skips_ratelimit Sample.Main Sample.production
           (Sample.slash "ping" "owner") Sample.w0 H)))).
Defined.

(** ** The listener, unfolded *)

Lemma bind_then_ret (c : M unit) (w : World) :
  bind c (fun _ => ret tt) w = c w.
Proof.
  unfold bind, ret. destruct (c w) as [[[]|e] w' t]; cbn; rewrite ?app_nil_r; reflexivity.
Qed.

Lemma tryBlock_result (store : StatsStore) (Main : MainT) (config : Config)
    (i : Interaction.t) (w : World) :
  tryBlock store Main config i w =
  match update_rejects store CommandsExecuted with
  | Some e =>
      {| outcome := Thrown e; world := w;
         trace := if IsInDevelopmentMode config then [LogDebug] else [] |}
  | None =>
      {| outcome := outcome (processCommandInteraction Main i (world (incExecuted w)));
         world := world (processCommandInteraction Main i (world (incExecuted w)));
         trace := (if IsInDevelopmentMode config then [LogDebug] else [])
                  ++ IncExecuted
                  :: trace (processCommandInteraction Main i (world (incExecuted w))) |}
  end.
Proof.
  unfold tryBlock, GlobalStatsModel_findOneAndUpdate.
  generalize (processCommandInteraction Main i) as process. intros process.
  unfold bind, emit, ret, throw.
  destruct (IsInDevelopmentMode config), (update_rejects store CommandsExecuted);
    reflexivity.
Qed.

Lemma catchBlock_result (store : StatsStore) (config : Config) (i : Interaction.t)
    (error : string) (w : World) :
  catchBlock store config i error w = caught store config i error w [].
Proof.
  unfold catchBlock, caught, GlobalStatsModel_findOneAndUpdate, swallow, try_catch,
    createMessage, bind, emit, ret, throw.
  destruct (IsInDevelopmentMode config), (update_rejects store CommandsFailed),
    (createMessage_rejects i (MsgErrorOccurred (name i))); reflexivity.
Qed.


(** The listener over any store, for an application command. *)
Lemma interactionCreateWith_command (store : StatsStore) (Main : MainT)
    (config : Config) (i : Interaction.t) (w : World) :
  type i = APPLICATION_COMMAND ->
  interactionCreateWith store Main config i w =
  match update_rejects store CommandsExecuted with
  | Some e =>
      caught store config i e w (if IsInDevelopmentMode config then [LogDebug] else [])
  | None =>
      match outcome (processCommandInteraction Main i (world (incExecuted w))) with
      | Returned _ =>
          {| outcome := Returned tt;
             world := world (processCommandInteraction Main i (world (incExecuted w)));
             trace := (if IsInDevelopmentMode config then [LogDebug] else [])
                      ++ IncExecuted
                      :: trace (processCommandInteraction Main i (world (incExecuted w))) |}
      | Thrown error =>
          caught store config i error
            (world (processCommandInteraction Main i (world (incExecuted w))))
            ((if IsInDevelopmentMode config then [LogDebug] else [])
             ++ IncExecuted
             :: trace (processCommandInteraction Main i (world (incExecuted w))))
      end
  end.
Proof.
  intros Ht. unfold interactionCreateWith. rewrite Ht. rewrite bind_then_ret.
  unfold try_catch. rewrite tryBlock_result.
  destruct (update_rejects store CommandsExecuted) as [e|] eqn:He;
    cbn [outcome world trace].
  - rewrite catchBlock_result. unfold caught. cbn [outcome world trace app].
    reflexivity.
  - generalize (processCommandInteraction Main i (world (incExecuted w))) as p.
    intros [[[]|error] wp tp]; cbn [outcome world trace]; [reflexivity|].
    rewrite catchBlock_result. unfold caught. cbn [outcome world trace app].
    reflexivity.
Qed.


(** ** The claims about the listener *)








(** ** The rate-limit step *)

(** The calls of the step, in order: the global and the user manager are
    acquired first; the guild manager is acquired only in a guild and only if
    the global block has not rejected; nothing else is called. *)
Lemma checkRatelimit_trace (rl : Ratelimit.t) (i : Interaction.t) (w : World) :
  trace (checkRatelimit rl i w)
  = (acquired ScopeGlobal (Ratelimit.global rl) (name i)
     ++ acquired ScopeUser (Ratelimit.user rl) (user_id i)
     ++ (if globalRejects rl i w then []
         else match Interaction.guild i with
              | Some guild_id => acquired ScopeGuild (Ratelimit.guild rl) guild_id
              | None => []
              end))%list.
Proof.
  unfold checkRatelimit, globalRejects, unlessRejected, scopeBlock, acquire_opt,
    consume_opt, limited_opt, bind, acquire, ret.
  destruct rl as [[rg|] [rgu|] [ru|]]; cbn [Ratelimit.global Ratelimit.guild Ratelimit.user
    truthy acquired outcome world trace limited app];
    repeat match goal with
           | |- context [if ?b then _ else _] => destruct b eqn:?
           | |- context [match Interaction.guild i with _ => _ end] =>
               destruct (Interaction.guild i)
           | _ => progress cbn [outcome world trace limited app acquired truthy]
           end; try reflexivity; congruence.
Qed.

Lemma checkRatelimit_outcome_global (rl : Ratelimit.t) (i : Interaction.t) (w : World)
    (rg : ManagerRef) :
  Ratelimit.global rl = Some rg ->
  globalRejects rl i w = true ->
  outcome (checkRatelimit rl i w)
  = Returned (Some (MsgRateLimitedGlobal
      (RateLimit.remainingTime
         (snd (RateLimit.acquire (managers w rg) (clock w) (name i)))))).
Proof.
  unfold globalRejects. intros Hg. rewrite Hg. intros Hl.
  unfold checkRatelimit, unlessRejected, scopeBlock, acquire_opt, bind, acquire, ret.
  rewrite Hg. destruct (Ratelimit.user rl);
    cbn [truthy outcome world trace limited_opt remainingTime_opt limited remainingTime];
    rewrite Hl; reflexivity.
Qed.

(** C2, as stated, fails: the global scope is strict and limited, the
    evaluation rejects with the global scope and its remaining time, and yet
    the user scope has been acquired: its manager now holds a bucket for the
    caller that did not exist before. *)
Lemma user_scope_acquired_despite_global_limit :
  globalRejects Sample.pingPolicy (Sample.slash "ping" "u1") Sample.w0 = true
  /\ outcome (checkRatelimit Sample.pingPolicy (Sample.slash "ping" "u1") Sample.w0)
     = Returned (Some (MsgRateLimitedGlobal 59000))
  /\ trace (checkRatelimit Sample.pingPolicy (Sample.slash "ping" "u1") Sample.w0)
     = [Acquire ScopeGlobal 0%nat "ping"; Acquire ScopeUser 1%nat "u1"]
  /\ RateLimit.buckets (managers Sample.w0 1%nat) !! "u1" = None
  /\ RateLimit.buckets
       (managers (world (checkRatelimit Sample.pingPolicy (Sample.slash "ping" "u1")
                           Sample.w0)) 1%nat) !! "u1"
     = Some {| RateLimit.count := 0; RateLimit.windowStart := 1000 |}.
Proof. vm_compute. repeat split; reflexivity. Qed.

(** C2, amended: when the global scope is strict and limited, the evaluation
    returns the rejection that carries the global scope and its remaining
    time; the guild scope is neither acquired nor consumed and no scope is
    consumed; the only calls are the acquisition of the global bucket and,
    when the user scope has a manager, the acquisition of the user bucket,
    which the code performs before it looks at the global result. *)
Theorem global_limit_stops_evaluation (rl : Ratelimit.t) (i : Interaction.t)
    (w : World) (rg : ManagerRef) :
  Ratelimit.global rl = Some rg ->
  RateLimit.limited (snd (RateLimit.acquire (managers w rg) (clock w) (name i))) = true ->
  outcome (checkRatelimit rl i w)
  = Returned (Some (MsgRateLimitedGlobal
      (RateLimit.remainingTime
         (snd (RateLimit.acquire (managers w rg) (clock w) (name i))))))
  /\ trace (checkRatelimit rl i w)
     = Acquire ScopeGlobal rg (name i)
       :: acquired ScopeUser (Ratelimit.user rl) (user_id i)
  /\ forallb (fun e => negb (onScope ScopeGuild e)) (trace (checkRatelimit rl i w)) = true
  /\ forallb notConsume (trace (checkRatelimit rl i w)) = true
  /\ world (checkRatelimit rl i w)
     = fold_left replay
         (Acquire ScopeGlobal rg (name i)
          :: acquired ScopeUser (Ratelimit.user rl) (user_id i)) w.
Proof.
  intros Hg Hl.
  assert (Hr : globalRejects rl i w = true) by (unfold globalRejects; now rewrite Hg).
  assert (Ht : trace (checkRatelimit rl i w)
               = Acquire ScopeGlobal rg (name i)
                 :: acquired ScopeUser (Ratelimit.user rl) (user_id i)).
  { rewrite checkRatelimit_trace, Hr, Hg. cbn [acquired app]. now rewrite app_nil_r. }
  split; [now apply checkRatelimit_outcome_global|].
  split; [exact Ht|].
  split; [rewrite Ht; destruct (Ratelimit.user rl); reflexivity|].
  split; [rewrite Ht; destruct (Ratelimit.user rl); reflexivity|].
  rewrite <- Ht. apply Sound_checkRatelimit.
Qed.

Lemma global_limit_stops_evaluation_witness :
  outcome (checkRatelimit Sample.pingPolicy (Sample.slash "ping" "u1") Sample.w0)
  = Returned (Some (MsgRateLimitedGlobal
      (RateLimit.remainingTime
         (snd (RateLimit.acquire (managers Sample.w0 0%nat) (clock Sample.w0) "ping"))))).
Proof.
  refine (proj1 (global_limit_stops_evaluation Sample.pingPolicy
            (Sample.slash "ping" "u1") Sample.w0 0%nat _ _));
    vm_compute; reflexivity.
Defined.

(** C5: a strict scope (one whose manager is configured) is never consumed
    by a policy evaluation, limited or not: the evaluation makes no consume
    call; every bucket of the scope's manager keeps the count of its current
    window; a stored bucket is afterwards either the stored bucket of before
    or one with count 0 (created, or reset because its window was over); and
    the same holds for the whole dispatch of an event, so such a scope
    accumulates no count through the dispatcher. *)
Theorem strict_scope_never_consumed (Main : MainT) (config : Config)
    (rl : Ratelimit.t) (i : Interaction.t) (w : World) (s : Scope) (r : ManagerRef) :
  scopeManager rl s = Some r ->
  strict rl s = true
  /\ forallb notConsume (trace (checkRatelimit rl i w)) = true
  /\ (forall id,
        RateLimit.countAt (managers (world (checkRatelimit rl i w)) r) (clock w) id
        = RateLimit.countAt (managers w r) (clock w) id)
  /\ (forall id b',
        RateLimit.buckets (managers (world (checkRatelimit rl i w)) r) !! id = Some b' ->
        RateLimit.count b' = 0%nat \/ RateLimit.buckets (managers w r) !! id = Some b')
  /\ forallb notConsume (trace (interactionCreate Main config i w)) = true
  /\ (forall id,
        RateLimit.countAt (managers (world (interactionCreate Main config i w)) r) (clock w) id
        = RateLimit.countAt (managers w r) (clock w) id).
Proof.
  intros Hs.
  split; [unfold strict; now rewrite Hs|].
  split; [apply Emits_checkRatelimit|].
  split; [intros id; apply Sound_countAt;
          [apply Sound_checkRatelimit | apply Emits_checkRatelimit]|].
  split; [intros id b'; apply Sound_buckets;
          [apply Sound_checkRatelimit | apply Emits_checkRatelimit]|].
  split; [apply Emits_interactionCreate|].
  intros id. apply Sound_countAt;
    [apply Sound_interactionCreate | apply Emits_interactionCreate].
Qed.

Lemma strict_scope_never_consumed_witness :
  RateLimit.countAt
    (managers (world (interactionCreate Sample.Main Sample.production
                        (Sample.slash "pong" "u1") Sample.w0)) 1%nat)
    (clock Sample.w0) "u1"
  = RateLimit.countAt (managers Sample.w0 1%nat) (clock Sample.w0) "u1".
Proof.
  refine (proj2 (proj2 (proj2 (proj2 (proj2
    (strict_scope_never_consumed Sample.Main Sample.production Sample.userOnlyPolicy
       (Sample.slash "pong" "u1") Sample.w0 ScopeUser 1%nat _))))) "u1").
  reflexivity.
Defined.

(** C1, a defect of the code, at a concrete call.  In the policy of "pong"
    only the user scope has a manager.  For the global and the guild scope
    the condition [command.ratelimit.scope] is falsy, so their blocks take the
    [else] branch and call [consume] on the handle; but the handle comes from
    [manager?.acquire] on the same undefined manager and is itself undefined,
    so [handle?.consume()] does nothing.  The evaluation by a caller who is
    not the owner makes one manager call, the acquisition of the user bucket,
    and no bucket of any manager has a higher count afterwards: the consume
    the code writes three times never happens. *)
Lemma non_strict_scope_not_consumed :
  strict Sample.userOnlyPolicy ScopeGlobal = false
  /\ strict Sample.userOnlyPolicy ScopeGuild = false
  /\ outcome (acquire_opt ScopeGlobal (Ratelimit.global Sample.userOnlyPolicy) "pong"
                Sample.w0) = Returned None
  /\ outcome (acquire_opt ScopeGuild (Ratelimit.guild Sample.userOnlyPolicy) "g1"
                Sample.w0) = Returned None
  /\ trace (consume_opt ScopeGlobal None Sample.w0) = []
  /\ isOwner Sample.Main "u1" = false
  /\ trace (processCommandInteraction Sample.Main (Sample.slash "pong" "u1") Sample.w0)
     = [Acquire ScopeUser 1%nat "u1"; RunHandler "pong"]
  /\ (forall r id,
        RateLimit.countAt
          (managers (world (processCommandInteraction Sample.Main
                              (Sample.slash "pong" "u1") Sample.w0)) r)
          (clock Sample.w0) id
        = RateLimit.countAt (managers Sample.w0 r) (clock Sample.w0) id).
Proof.
  repeat (split; [vm_compute; reflexivity|]).
  intros r id. apply Sound_countAt;
    [apply Sound_processCommandInteraction | apply Emits_processCommandInteraction].
Qed.

(** The same defect for every policy: the [else] branch of a scope's block
    runs only when the scope has no manager, and then there is no handle to
    consume; so no call is made on behalf of such a scope, no evaluation
    makes a consume call, and every bucket keeps the count of its current
    window. *)
Theorem evaluation_never_consumes (rl : Ratelimit.t) (i : Interaction.t) (w : World) :
  (forall s, strict rl s = false <-> scopeManager rl s = None)
  /\ (forall s, strict rl s = false ->
        forallb (fun e => negb (onScope s e)) (trace (checkRatelimit rl i w)) = true)
  /\ forallb notConsume (trace (checkRatelimit rl i w)) = true
  /\ (forall r id,
        RateLimit.countAt (managers (world (checkRatelimit rl i w)) r) (clock w) id
        = RateLimit.countAt (managers w r) (clock w) id).
Proof.
  split.
  { intros s. unfold strict. destruct (scopeManager rl s); cbn; split; congruence. }
  split.
  { intros s Hs. rewrite checkRatelimit_trace.
    destruct rl as [g gu u]. unfold strict in Hs.
    destruct s; cbn [scopeManager] in Hs; cbn [Ratelimit.global Ratelimit.guild Ratelimit.user];
      destruct g, gu, u; try discriminate Hs; cbn [acquired app];
      destruct (globalRejects _ i w); try reflexivity;
      destruct (Interaction.guild i); reflexivity. }
  split; [apply Emits_checkRatelimit|].
  intros r id. apply Sound_countAt; [apply Sound_checkRatelimit | apply Emits_checkRatelimit].
Qed.

(** * Further properties of the dispatcher *)

Section VerdictFacts.

(** The acquisition of one bucket does not change what any bucket
    reports. *)
Lemma view_after_acquire (ms : ManagerRef -> RateLimit.Manager) (now : Z)
    (r0 : ManagerRef) (id0 : string) (r : ManagerRef) (id : string) :
  snd (RateLimit.acquire (upd ms r0 (fst (RateLimit.acquire (ms r0) now id0)) r) now id)
  = snd (RateLimit.acquire (ms r) now id).
Proof.
  destruct (Nat.eq_dec r0 r) as [->|Hne].
  - rewrite upd_same. apply RateLimitFacts.view_acquire.
  - now rewrite upd_other.
Qed.

Lemma viewAt_replay l : forall w r id,
  forallb notConsume l = true ->
  viewAt (fold_left replay l w) r id = viewAt w r id.
Proof.
  induction l as [|e l IH]; intros w r id H; cbn [fold_left]; [reflexivity|].
  cbn [forallb] in H. apply andb_true_iff in H as [He Hl].
  rewrite IH by exact Hl.
  destruct e; try discriminate He; try reflexivity.
  unfold viewAt. cbn [replay managers clock setManagers]. apply view_after_acquire.
Qed.

Lemma verdict_replay l rl i w :
  forallb notConsume l = true ->
  verdict rl i (fold_left replay l w) = verdict rl i w.
Proof.
  intros H. unfold verdict, scopeVerdict.
  destruct (Ratelimit.global rl), (Ratelimit.guild rl), (Ratelimit.user rl),
    (Interaction.guild i); rewrite ?(viewAt_replay l w) by exact H; reflexivity.
Qed.

End VerdictFacts.

(** The rate-limit step returns, as its rejection, the first limited
    scope in the order global, guild, user, each judged on the state before
    the call; the guild scope counts only in a guild; with no scope limited
    it returns no rejection.  It never throws. *)
Lemma checkRatelimit_outcome (rl : Ratelimit.t) (i : Interaction.t) (w : World) :
  outcome (checkRatelimit rl i w) = Returned (verdict rl i w).
Proof.
  unfold checkRatelimit, verdict, scopeVerdict, viewAt, unlessRejected, scopeBlock,
    acquire_opt, consume_opt, limited_opt, remainingTime_opt, bind, acquire, ret.
  destruct rl as [[rg|] [rgu|] [ru|]];
    cbn [Ratelimit.global Ratelimit.guild Ratelimit.user truthy outcome world trace
         limited remainingTime managers clock setManagers];
    rewrite ?view_after_acquire;
    repeat match goal with
           | |- context [if ?b then _ else _] => destruct b eqn:?
           | |- context [match Interaction.guild i with _ => _ end] =>
               destruct (Interaction.guild i)
           | _ => progress cbn [outcome world trace limited remainingTime managers clock
                                setManagers truthy]
           end;
    cbn [managers clock setManagers] in *;
    rewrite ?view_after_acquire in *; try reflexivity; congruence.
Qed.

(** ** [processCommandInteraction], case by case *)

Lemma bind_ret_l {A B} (a : A) (k : A -> M B) (w : World) :
  bind (ret a) k w = k a w.
Proof. unfold bind, ret. cbn. now destruct (k a w). Qed.

Lemma bind_returned {A B} (c : M A) (k : A -> M B) (w : World) (a : A) :
  outcome (c w) = Returned a ->
  trace (bind c k w) = (trace (c w) ++ trace (k a (world (c w))))%list
  /\ world (bind c k w) = world (k a (world (c w)))
  /\ outcome (bind c k w) = outcome (k a (world (c w))).
Proof. intros H. unfold bind. rewrite H. now cbn. Qed.

Section ProcessFacts.

Variable Main : MainT.

Lemma authorize_none_iff command i :
  authorize Main command i = None <->
  Forall (fun check : Check => check command i = None) (gateChain Main).
Proof.
  unfold authorize. generalize (gateChain Main) as checks.
  induction checks as [|check rest IH]; cbn [firstRejection].
  - split; [constructor | reflexivity].
  - destruct (check command i) as [m|] eqn:E.
    + split; [discriminate|]. intros H. inversion H; congruence.
    + rewrite IH. split; [now constructor | intros H; now inversion H].
Qed.

Lemma createMessage_result i m w :
  trace (createMessage i m w) = [Reply m]
  /\ world (createMessage i m w) = w
  /\ outcome (createMessage i m w)
     = match createMessage_rejects i m with Some e => Thrown e | None => Returned tt end.
Proof.
  unfold createMessage, bind. cbn. destruct (createMessage_rejects i m); now cbn.
Qed.

(** Rejected by the gate. *)
Lemma process_rejected i w m :
  authorize Main (commandStoreMap Main !! name i) i = Some m ->
  processCommandInteraction Main i w = createMessage i m w.
Proof. intros H. unfold processCommandInteraction. now rewrite H. Qed.

(** Past the gate, limited. *)
Lemma process_limited i w c rl m :
  commandStoreMap Main !! name i = Some c ->
  authorize Main (Some c) i = None ->
  ratelimit c = Some rl ->
  isOwner Main (user_id i) = false ->
  verdict rl i w = Some m ->
  trace (processCommandInteraction Main i w) = (trace (checkRatelimit rl i w) ++ [Reply m])%list
  /\ world (processCommandInteraction Main i w) = world (checkRatelimit rl i w)
  /\ outcome (processCommandInteraction Main i w)
     = match createMessage_rejects i m with Some e => Thrown e | None => Returned tt end.
Proof.
  intros Hc Ha Hr Ho Hv. unfold processCommandInteraction.
  rewrite Hc, Ha. cbn [prop]. rewrite Hr, Ho. cbn [negb].
  pose proof (checkRatelimit_outcome rl i w) as Hout. rewrite Hv in Hout.
  destruct (bind_returned (checkRatelimit rl i)
              (fun limitedReply : option Message =>
                 match limitedReply with
                 | Some m0 => createMessage i m0
                 | None => runHandler c i
                 end) w (Some m) Hout) as (-> & -> & ->).
  destruct (createMessage_result i m (world (checkRatelimit rl i w))) as (-> & -> & ->).
  now repeat split.
Qed.

(** Past the gate, admitted. *)
Lemma process_admitted i w c :
  commandStoreMap Main !! name i = Some c ->
  authorize Main (Some c) i = None ->
  admitted Main c i w = true ->
  trace (processCommandInteraction Main i w)
  = (ratelimitCalls Main c i w ++ [RunHandler (name i)])%list
  /\ outcome (processCommandInteraction Main i w)
     = match run c i with Some e => Thrown e | None => Returned tt end.
Proof.
  intros Hc Ha Had. unfold processCommandInteraction, admitted, ratelimitCalls in *.
  rewrite Hc, Ha. cbn [prop].
  assert (Hrun : forall w', trace (runHandler c i w') = [RunHandler (name i)]
                            /\ outcome (runHandler c i w')
                               = match run c i with Some e => Thrown e | None => Returned tt end).
  { intros w'. unfold runHandler, bind. cbn. destruct (run c i); now cbn. }
  destruct (ratelimit c) as [rl|].
  - destruct (isOwner Main (user_id i)); cbn [negb orb] in *.
    + rewrite bind_ret_l. apply Hrun.
    + pose proof (checkRatelimit_outcome rl i w) as Hout.
      destruct (verdict rl i w); [discriminate Had|].
      destruct (bind_returned (checkRatelimit rl i)
                  (fun limitedReply : option Message =>
                     match limitedReply with
                     | Some m0 => createMessage i m0
                     | None => runHandler c i
                     end) w None Hout) as (-> & _ & ->).
      now destruct (Hrun (world (checkRatelimit rl i w))) as [-> ->].
  - rewrite bind_ret_l. apply Hrun.
Qed.

Lemma not_admitted c i w :
  admitted Main c i w = false ->
  exists rl m, ratelimit c = Some rl /\ isOwner Main (user_id i) = false
               /\ verdict rl i w = Some m.
Proof.
  unfold admitted. destruct (ratelimit c) as [rl|]; [|discriminate].
  destruct (isOwner Main (user_id i)); cbn [orb]; [discriminate|].
  destruct (verdict rl i w) as [m|] eqn:Hv; cbn [truthy negb]; [|discriminate].
  intros _. exists rl, m. repeat split; try reflexivity; exact Hv.
Qed.

Lemma checkRatelimit_no_handler rl i w :
  existsb isRunHandler (trace (checkRatelimit rl i w)) = false.
Proof.
  pose proof (Emits_checkRatelimit_calls (fun e => negb (isRunHandler e)) rl i) as H.
  specialize (H ltac:(now intros []) w).
  induction (trace (checkRatelimit rl i w)) as [|e l IH]; [reflexivity|].
  cbn [forallb existsb] in *. apply andb_true_iff in H as [He Hl].
  rewrite (IH Hl). now destruct (isRunHandler e).
Qed.

End ProcessFacts.

(** X1: the rate-limit step never throws; its result is the rejection of the
    first limited scope in the order global, guild, user, each judged on the
    state before the call, or no rejection when none is limited; outside a
    guild the guild scope is neither called nor reported. *)
Theorem ratelimit_reports_first_limited_scope (rl : Ratelimit.t) (i : Interaction.t)
    (w : World) :
  outcome (checkRatelimit rl i w) = Returned (verdict rl i w)
  /\ (Interaction.guild i = None ->
      forallb (fun e => negb (onScope ScopeGuild e)) (trace (checkRatelimit rl i w)) = true
      /\ forall t, verdict rl i w <> Some (MsgRateLimitedGuild t)).
Proof.
  split; [apply checkRatelimit_outcome|].
  intros Hg. split.
  - rewrite checkRatelimit_trace, Hg.
    destruct (Ratelimit.global rl), (Ratelimit.user rl), (globalRejects rl i w); reflexivity.
  - intros t. unfold verdict, scopeVerdict. rewrite Hg.
    destruct (Ratelimit.global rl), (Ratelimit.user rl);
      repeat match goal with
             | |- context [if ?b then _ else _] => destruct b
             end; congruence.
Qed.

Lemma handler_needs_admission (Main : MainT) (i : Interaction.t) (w : World) :
  existsb isRunHandler (trace (processCommandInteraction Main i w)) = true ->
  exists c, commandStoreMap Main !! name i = Some c
            /\ authorize Main (Some c) i = None
            /\ admitted Main c i w = true.
Proof.
  intros H.
  destruct (authorize Main (commandStoreMap Main !! name i) i) as [m|] eqn:Ha.
  { rewrite (process_rejected Main i w m Ha) in H.
    destruct (createMessage_result i m w) as (Ht & _). rewrite Ht in H. discriminate H. }
  destruct (commandStoreMap Main !! name i) as [c|] eqn:Hc.
  - exists c. repeat split; [exact Ha|].
    destruct (admitted Main c i w) eqn:Had; [reflexivity|].
    destruct (not_admitted Main c i w Had) as (rl & m & Hr & Ho & Hv).
    destruct (process_limited Main i w c rl m Hc Ha Hr Ho Hv) as (Ht & _).
    rewrite Ht, existsb_app, checkRatelimit_no_handler in H. discriminate H.
  - unfold processCommandInteraction in H. rewrite Hc, Ha in H. cbn [prop] in H.
    rewrite bind_ret_l in H.
    destruct (createMessage_result i MsgCommandNotFound w) as (Ht & _).
    rewrite Ht in H. discriminate H.
Qed.

(** When the handler runs, every check of the gate has passed. *)
Lemma handler_needs_checks (Main : MainT) (i : Interaction.t) (w : World) (c : Command) :
  commandStoreMap Main !! name i = Some c ->
  existsb isRunHandler (trace (processCommandInteraction Main i w)) = true ->
  checkDisabled Main (Some c) i = None
  /\ checkSuperUserOnly Main (Some c) i = None
  /\ checkPremiumOnly Main (Some c) i = None
  /\ checkHelperUserOnly Main (Some c) i = None
  /\ checkBotPermissions (Some c) i = None
  /\ checkUserPermissions Main (Some c) i = None.
Proof.
  intros Hc H.
  destruct (handler_needs_admission Main i w H) as (c' & Hc' & Ha & _).
  rewrite Hc in Hc'. injection Hc' as <-.
  apply authorize_none_iff in Ha. unfold gateChain in Ha.
  repeat match goal with
         | H : Forall _ (_ :: _) |- _ => inversion H; subst; clear H
         end.
  now repeat split.
Qed.

Lemma has_spec (held required : list Permission) :
  has held required = true <-> (forall p, In p required -> In p held).
Proof.
  unfold has. rewrite forallb_forall. split; intros H p Hp.
  - apply list_elem_of_In. eapply bool_decide_eq_true_1, H, Hp.
  - apply bool_decide_eq_true_2, list_elem_of_In, H, Hp.
Qed.

(** X2: the handler is invoked exactly when the command is registered, every
    check of the gate passes, and the rate-limit step admits the call (the
    command has no policy, or the caller is the owner, or no scope is
    limited); it is then the last call, after the manager calls, and its
    outcome is the outcome of [processCommandInteraction]. *)
Theorem handler_invoked_iff (Main : MainT) (i : Interaction.t) (w : World) :
  (existsb isRunHandler (trace (processCommandInteraction Main i w)) = true <->
   exists c, commandStoreMap Main !! name i = Some c
             /\ authorize Main (Some c) i = None
             /\ admitted Main c i w = true)
  /\ (forall c, commandStoreMap Main !! name i = Some c ->
        existsb isRunHandler (trace (processCommandInteraction Main i w)) = true ->
        trace (processCommandInteraction Main i w)
        = (ratelimitCalls Main c i w ++ [RunHandler (name i)])%list
        /\ outcome (processCommandInteraction Main i w)
           = match run c i with Some e => Thrown e | None => Returned tt end).
Proof.
  split; [split|].
  - apply handler_needs_admission.
  - intros (c & Hc & Ha & Had).
    destruct (process_admitted Main i w c Hc Ha Had) as (Ht & _).
    rewrite Ht, existsb_app. cbn. apply orb_true_r.
  - intros c Hc H.
    destruct (handler_needs_admission Main i w H) as (c' & Hc' & Ha & Had).
    rewrite Hc in Hc'. injection Hc' as <-.
    now apply process_admitted.
Qed.

(** X3: a caller who is not the owner and whose call is limited receives the
    reply of the first limited scope, after the acquisitions of the step; the
    handler is not invoked and the statistics are not touched. *)
Theorem limited_call_gets_scope_reply (Main : MainT) (i : Interaction.t) (w : World)
    (c : Command) (rl : Ratelimit.t) (m : Message) :
  commandStoreMap Main !! name i = Some c ->
  authorize Main (Some c) i = None ->
  ratelimit c = Some rl ->
  isOwner Main (user_id i) = false ->
  verdict rl i w = Some m ->
  trace (processCommandInteraction Main i w) = (trace (checkRatelimit rl i w) ++ [Reply m])%list
  /\ existsb isRunHandler (trace (processCommandInteraction Main i w)) = false
  /\ commands_executed (world (processCommandInteraction Main i w)) = commands_executed w
  /\ commands_failed (world (processCommandInteraction Main i w)) = commands_failed w.
Proof.
  intros Hc Ha Hr Ho Hv.
  destruct (process_limited Main i w c rl m Hc Ha Hr Ho Hv) as (Ht & _).
  split; [exact Ht|]. split.
  - rewrite Ht, existsb_app, checkRatelimit_no_handler. reflexivity.
  - apply processCommandInteraction_stats.
Qed.

Lemma limited_call_gets_scope_reply_witness :
  trace (processCommandInteraction Sample.Main (Sample.slash "pong" "u1") Fixture.w1)
  = (trace (checkRatelimit Sample.userOnlyPolicy (Sample.slash "pong" "u1") Fixture.w1)
     ++ [Reply (MsgRateLimitedUser 59500)])%list.
Proof.
  refine (proj1 (limited_call_gets_scope_reply Sample.Main (Sample.slash "pong" "u1")
            Fixture.w1 Sample.pong Sample.userOnlyPolicy (MsgRateLimitedUser 59500)
            _ _ _ _ _)); vm_compute; reflexivity.
Defined.

(** X4: the handler of a command that is disabled, owner-only or helper-only
    runs for the owner alone: there is no helper lookup, so a helper-only
    command is closed to every other caller. *)
Theorem flagged_commands_run_for_owner_only (Main : MainT) (i : Interaction.t)
    (w : World) (c : Command) :
  commandStoreMap Main !! name i = Some c ->
  disabled c || superUserOnly c || helperUserOnly c = true ->
  existsb isRunHandler (trace (processCommandInteraction Main i w)) = true ->
  isOwner Main (user_id i) = true.
Proof.
  intros Hc Hf H.
  destruct (handler_needs_checks Main i w c Hc H) as (H1 & H2 & _ & H4 & _).
  unfold checkDisabled, checkSuperUserOnly, checkHelperUserOnly in *. cbn [flag] in *.
  destruct (isOwner Main (user_id i)); [reflexivity|].
  destruct (disabled c), (superUserOnly c), (helperUserOnly c); discriminate.
Qed.

Lemma flagged_commands_run_for_owner_only_witness :
  isOwner Fixture.Main (user_id (Sample.slash "support" "owner")) = true.
Proof.
  refine (flagged_commands_run_for_owner_only Fixture.Main (Sample.slash "support" "owner")
            Sample.w0 Fixture.support _ _ _); vm_compute; reflexivity.
Defined.

(** X5: the handler of a premium-only command runs only for the owner or for
    a caller the premium-user lookup accepts. *)
Theorem premium_commands_run_for_premium_users (Main : MainT) (i : Interaction.t)
    (w : World) (c : Command) :
  commandStoreMap Main !! name i = Some c ->
  premiumOnly c = true ->
  existsb isRunHandler (trace (processCommandInteraction Main i w)) = true ->
  isOwner Main (user_id i) = true \/ isPremiumUser Main (user_id i) = true.
Proof.
  intros Hc Hp H.
  destruct (handler_needs_checks Main i w c Hc H) as (_ & _ & H3 & _).
  unfold checkPremiumOnly in H3. cbn [flag] in H3. rewrite Hp in H3.
  destruct (isOwner Main (user_id i)); [now left|].
  destruct (isPremiumUser Main (user_id i)); [now right | discriminate].
Qed.

Lemma premium_commands_run_for_premium_users_witness :
  isOwner Fixture.Main (user_id (Sample.slash "gold" "patron")) = true
  \/ isPremiumUser Fixture.Main (user_id (Sample.slash "gold" "patron")) = true.
Proof.
  refine (premium_commands_run_for_premium_users Fixture.Main (Sample.slash "gold" "patron")
            Sample.w0 Fixture.gold _ _ _); vm_compute; reflexivity.
Defined.

(** X6: when the handler runs, the bot holds every permission the command
    requires of it (the owner included), and the caller is the owner or a
    guild member who holds every permission the command requires of the
    user. *)
Theorem handler_runs_with_required_permissions (Main : MainT) (i : Interaction.t)
    (w : World) (c : Command) :
  commandStoreMap Main !! name i = Some c ->
  existsb isRunHandler (trace (processCommandInteraction Main i w)) = true ->
  (forall required, requiredBotPermissions c = Some required ->
     exists held, appPermissions i = Some held
                  /\ forall p, In p required -> In p held)
  /\ (forall required, requiredUserPermissions c = Some required ->
       isOwner Main (user_id i) = true
       \/ exists held, member i = Some held
                       /\ forall p, In p required -> In p held).
Proof.
  intros Hc H.
  destruct (handler_needs_checks Main i w c Hc H) as (_ & _ & _ & _ & H5 & H6).
  split; intros required Hr.
  - unfold checkBotPermissions in H5. cbn [prop] in H5. rewrite Hr in H5.
    destruct (appPermissions i) as [held|]; cbn [has_opt negb] in H5; [|discriminate].
    exists held. split; [reflexivity|].
    apply has_spec. now destruct (has held required).
  - unfold checkUserPermissions in H6. cbn [prop] in H6. rewrite Hr in H6.
    destruct (isOwner Main (user_id i)); [now left|]. right. cbn [negb] in H6.
    destruct (member i) as [held|]; cbn [has_opt negb] in H6; [|discriminate].
    exists held. split; [reflexivity|].
    apply has_spec. now destruct (has held required).
Qed.

Lemma handler_runs_with_required_permissions_witness :
  exists held,
    appPermissions (Sample.direct "embed" "u1") = Some held
    /\ forall p, In p ["EMBED_LINKS"] -> In p held.
Proof.
  refine (proj1 (handler_runs_with_required_permissions Sample.Main
            (Sample.direct "embed" "u1") Sample.w0 Sample.embed _ _)
            ["EMBED_LINKS"] eq_refl);
    vm_compute; reflexivity.
Defined.

(** X7: a rejection by the gate comes before the rate-limit step: the reply
    is the only call, no rate-limit manager is acquired or consumed and the
    world is left as it was, so a rejected caller never creates or resets a
    bucket. *)
Theorem gate_rejection_precedes_ratelimit (Main : MainT) (i : Interaction.t)
    (w : World) (m : Message) :
  authorize Main (commandStoreMap Main !! name i) i = Some m ->
  trace (processCommandInteraction Main i w) = [Reply m]
  /\ world (processCommandInteraction Main i w) = w
  /\ outcome (processCommandInteraction Main i w)
     = match createMessage_rejects i m with Some e => Thrown e | None => Returned tt end.
Proof.
  intros H. rewrite (process_rejected Main i w m H). apply createMessage_result.
Qed.

Lemma gate_rejection_precedes_ratelimit_witness :
  world (processCommandInteraction Sample.Main (Sample.slash "embed" "u1") Sample.w0)
  = Sample.w0.
Proof.
  refine (proj1 (proj2 (gate_rejection_precedes_ratelimit Sample.Main
            (Sample.slash "embed" "u1") Sample.w0
            (MsgMissingBotPermissions ["EMBED_LINKS"]) _))).
  vm_compute; reflexivity.
Defined.

(** X8: the gate reports the first check that rejects, in the order of the
    source: disabled, owner-only, premium-only, helper-only, bot permissions,
    user permissions.  It answers [m] exactly when one of the six checks
    answers [m] and each check that comes before it in that order passes. *)
Theorem gate_reports_first_rejection (Main : MainT) (command : option Command)
    (i : Interaction.t) (m : Message) :
  authorize Main command i = Some m <->
  checkDisabled Main command i = Some m
  \/ (checkDisabled Main command i = None
      /\ checkSuperUserOnly Main command i = Some m)
  \/ (checkDisabled Main command i = None
      /\ checkSuperUserOnly Main command i = None
      /\ checkPremiumOnly Main command i = Some m)
  \/ (checkDisabled Main command i = None
      /\ checkSuperUserOnly Main command i = None
      /\ checkPremiumOnly Main command i = None
      /\ checkHelperUserOnly Main command i = Some m)
  \/ (checkDisabled Main command i = None
      /\ checkSuperUserOnly Main command i = None
      /\ checkPremiumOnly Main command i = None
      /\ checkHelperUserOnly Main command i = None
      /\ checkBotPermissions command i = Some m)
  \/ (checkDisabled Main command i = None
      /\ checkSuperUserOnly Main command i = None
      /\ checkPremiumOnly Main command i = None
      /\ checkHelperUserOnly Main command i = None
      /\ checkBotPermissions command i = None
      /\ checkUserPermissions Main command i = Some m).
Proof.
  unfold authorize, gateChain. cbn [firstRejection].
  destruct (checkDisabled Main command i) as [m1|]; [intuition congruence|].
  destruct (checkSuperUserOnly Main command i) as [m2|]; [intuition congruence|].
  destruct (checkPremiumOnly Main command i) as [m3|]; [intuition congruence|].
  destruct (checkHelperUserOnly Main command i) as [m4|]; [intuition congruence|].
  destruct (checkBotPermissions command i) as [m5|]; [intuition congruence|].
  destruct (checkUserPermissions Main command i) as [m6|]; [|intuition congruence].
  split.
  - intros H. do 5 right. repeat split; try reflexivity. exact H.
  - intuition congruence.
Qed.

(** X9: no dispatch changes what any bucket reports at the same clock: after
    the listener has handled an event, every policy gives every caller the
    verdict it gave before, so a caller admitted once is admitted again and
    no limit is ever reached through the dispatcher. *)
Theorem dispatch_keeps_every_verdict (Main : MainT) (config : Config)
    (i : Interaction.t) (w : World) (rl : Ratelimit.t) (i' : Interaction.t) :
  verdict rl i' (world (interactionCreate Main config i w)) = verdict rl i' w
  /\ outcome (checkRatelimit rl i' (world (interactionCreate Main config i w)))
     = outcome (checkRatelimit rl i' w).
Proof.
  assert (H : verdict rl i' (world (interactionCreate Main config i w)) = verdict rl i' w).
  { rewrite Sound_interactionCreate. apply verdict_replay, Emits_interactionCreate. }
  split; [exact H|]. now rewrite !checkRatelimit_outcome, H.
Qed.

(** X10: the listener throws only the error of a rejected failure-counter
    update: it throws exactly when the event is an application command, the
    dispatch ends in the catch block (the first update is rejected, or
    [processCommandInteraction] throws: the handler or an undeliverable
    reply), the process is not in development mode and the store rejects the
    update of the failure counter; every other failure is contained.  The
    failure counter goes up by one exactly when the catch block is entered
    outside development mode and the store applies the update; so it also
    counts a dispatch whose first update was rejected before any command
    ran. *)
Theorem listener_throws_only_a_rejected_failure_count (store : StatsStore)
    (Main : MainT) (config : Config) (i : Interaction.t) (w : World) :
  outcome (interactionCreateWith store Main config i w)
  = (if isCommand (type i) && entersCatch store Main i w
        && negb (IsInDevelopmentMode config)
     then match update_rejects store CommandsFailed with
          | Some e => Thrown e
          | None => Returned tt
          end
     else Returned tt)
  /\ commands_failed (world (interactionCreateWith store Main config i w))
     = (commands_failed w
        + (if isCommand (type i) && entersCatch store Main i w
              && negb (IsInDevelopmentMode config)
              && negb (truthy (update_rejects store CommandsFailed))
           then 1 else 0))%nat.
Proof.
  destruct (isCommand (type i)) eqn:Ht.
  - assert (Hc : type i = APPLICATION_COMMAND) by (destruct (type i); now try discriminate Ht).
    rewrite (interactionCreateWith_command store Main config i w Hc).
    destruct (processCommandInteraction_stats Main i (world (incExecuted w))) as [_ Hf].
    unfold entersCatch, caught.
    set (p := processCommandInteraction Main i (world (incExecuted w))) in *.
    cbn [incExecuted world commands_failed] in Hf.
    destruct (update_rejects store CommandsExecuted) as [e0|];
      [|destruct (outcome p)];
      destruct (IsInDevelopmentMode config), (update_rejects store CommandsFailed);
      cbn [outcome world andb negb truthy incFailed commands_failed];
      rewrite ?Hf; split; try reflexivity; lia.
  - unfold interactionCreateWith. destruct (type i); try discriminate Ht; cbn; split;
      try reflexivity; lia.
Qed.



(** X12: an event that is not an application command changes nothing and
    gets no reply: it is not counted, no command is looked up and no manager
    is called; an autocomplete event is logged, every other type is
    ignored. *)
Theorem other_events_are_ignored (Main : MainT) (config : Config)
    (i : Interaction.t) (w : World) :
  type i <> APPLICATION_COMMAND ->
  world (interactionCreate Main config i w) = w
  /\ trace (interactionCreate Main config i w)
     = match type i with
       | APPLICATION_COMMAND_AUTOCOMPLETE => [LogDebug]
       | _ => []
       end.
Proof.
  intros Ht. unfold interactionCreate.
  destruct (type i); try (now cbn).
Qed.

Lemma other_events_are_ignored_witness :
  trace (interactionCreate Sample.Main Sample.production
           (Fixture.autocomplete "ping" "u1") Sample.w0)
  = [LogDebug].
Proof.
  refine (proj2 (other_events_are_ignored Sample.Main Sample.production
            (Fixture.autocomplete "ping" "u1") Sample.w0 _)).
  discriminate.
Defined.

(** * The command handlers *)

(** A literal sub-command name is found in a path of one name exactly when it
    is that name. *)
Lemma findsSubCommand_single (wanted n : string) :
  wanted <> "" ->
  findsSubCommand wanted [n] = String.eqb wanted n.
Proof.
  intros Hne. unfold findsSubCommand. cbn [List.find].
  destruct (String.eqb_spec wanted n) as [<-|]; [|reflexivity].
  destruct (String.eqb_spec wanted ""); [contradiction | reflexivity].
Qed.

Lemma bind_unit_ret_r (c : M unit) (w : World) :
  bind c (fun _ => ret tt) w = c w.
Proof.
  unfold bind, ret. destruct (c w) as [[[]|e] w' t]; cbn; rewrite ?app_nil_r; reflexivity.
Qed.

(** X13: outside a guild the [automate] command does nothing at all: it
    returns before it reads the sub-command, so no handler runs, nothing is
    sent and nothing is thrown, even for an interaction without any
    sub-command.  In a guild, a sub-command path of one name runs the handler
    of that name and nothing else: the run is the run of that handler; a name
    that is none of the six runs no handler and sends no reply. *)
Theorem automate_runs_the_named_handler (h : Automate.Handlers) (d : OptionsData)
    (i : Interaction.t) (w : World) :
  (Interaction.guild i = None -> Automate.run h d i w = ret tt w)
  /\ (forall guild_id n,
        Interaction.guild i = Some guild_id ->
        subCommandPath d = Some [n] ->
        Automate.run h d i w
        = match Automate.handlerOf h n with
          | Some handler => handler i w
          | None => ret tt w
          end).
Proof.
  split.
  { intros Hg. unfold Automate.run. now rewrite Hg. }
  intros guild_id n Hg Hp.
  unfold Automate.run, getSubCommand. rewrite Hg, Hp. cbn [truthy negb].
  rewrite !findsSubCommand_single by discriminate.
  unfold Automate.handlerOf.
  repeat match goal with
         | |- context [String.eqb n ?lit] =>
             rewrite (String.eqb_sym n lit);
             destruct (String.eqb_spec lit n) as [<-|?]
         end;
    cbn [String.eqb Ascii.eqb Bool.eqb Automate.when];
    rewrite ?bind_ret_l;
    repeat match goal with
           | |- context [bind ?c _ w] =>
               change (bind c _ w) with (bind c (fun _ => ret tt) w)
           end;
    rewrite ?bind_unit_ret_r; reflexivity.
Qed.

Lemma automate_runs_the_named_handler_witness :
  Automate.run Fixture.handlers {| subCommandPath := None; stringOptions := ∅ |}
    (Sample.direct "automate" "owner") Sample.w0
  = ret tt Sample.w0
  /\ Automate.run Fixture.handlers (Fixture.options ["goodbye-view"] [])
       (Sample.slash "automate" "u1") Sample.w0
     = match Automate.handlerOf Fixture.handlers "goodbye-view" with
       | Some handler => handler (Sample.slash "automate" "u1") Sample.w0
       | None => ret tt Sample.w0
       end.
Proof.
  split.
  - apply (proj1 (automate_runs_the_named_handler Fixture.handlers
                    {| subCommandPath := None; stringOptions := ∅ |}
                    (Sample.direct "automate" "owner") Sample.w0)).
    reflexivity.
  - apply (proj2 (automate_runs_the_named_handler Fixture.handlers
                    (Fixture.options ["goodbye-view"] []) (Sample.slash "automate" "u1")
                    Sample.w0) "g1" "goodbye-view"); reflexivity.
Defined.

Section TagFacts.

Context {S : Type} (P : Tag.Plugin S).

Ltac tag_cases :=
  repeat match goal with
         | |- context [if ?b then _ else _] => destruct b eqn:?
         | |- context [match ?x with _ => _ end] => destruct x eqn:?
         end.

(** X14: the [tag] command writes to the tags plugin only when all of this
    holds: the interaction is in a guild and names a sub-command, the caller
    is a member with MANAGE_MESSAGES, the [name] option is present, and
    either the sub-command is [create], the guild's limit is not reached and
    no tag of that name exists, or it is [delete] or [edit] and the tag
    exists.  In every other case the plugin is left as it was: a full guild
    gets no further tag, an existing tag is not overwritten by [create], and
    [list], [view] and unknown sub-commands only read. *)
Theorem tag_writes_only_when_allowed (d : OptionsData) (user_tag : string)
    (i : Interaction.t) (s : S) :
  snd (Tag.run P d user_tag i s) <> s ->
  exists guild_id path name,
    Interaction.guild i = Some guild_id
    /\ subCommandPath d = Some path
    /\ Tag.mayManage i = true
    /\ stringOptions d !! "name" = Some name
    /\ ((findsSubCommand "create" path = true
         /\ Tag.GetTagLimit P s guild_id = false
         /\ Tag.GetTag P s guild_id name = None)
        \/ (findsSubCommand "create" path = false
            /\ Tag.writes path = true
            /\ exists tag, Tag.GetTag P s guild_id name = Some tag)).
Proof.
  unfold Tag.run, getSubCommand, getString, Tag.writes.
  destruct (subCommandPath d) as [path|]; [|intros H; now contradiction H].
  destruct (Interaction.guild i) as [guild_id|]; [|intros H; now contradiction H].
  destruct (findsSubCommand "create" path) eqn:Hcreate;
    [|destruct (findsSubCommand "delete" path) eqn:Hdelete;
      [|destruct (findsSubCommand "edit" path) eqn:Hedit]];
    destruct (Tag.mayManage i) eqn:Hm; cbn [negb orb];
    destruct (stringOptions d !! "name") as [name|] eqn:Hname;
    tag_cases; cbn [snd truthy negb] in *;
    try (intros H; now contradiction H);
    intros _; exists guild_id, path, name;
    repeat split; try reflexivity; try assumption.
  all: repeat match goal with
              | H : findsSubCommand _ _ = _ |- _ => rewrite H; clear H
              end.
  all: first
    [ left; split; [reflexivity|]; split; [assumption|];
      match goal with
      | H : truthy ?x = false |- ?x = None => now destruct x
      end
    | right; split; [reflexivity|]; split; [reflexivity|];
      match goal with
      | H : negb (truthy ?x) = false |- exists t, ?x = Some t =>
          destruct x as [t|]; [now exists t | discriminate H]
      end ].
Qed.

(** X15: a caller without MANAGE_MESSAGES (or outside the guild's members)
    cannot change the tags: the plugin is left as it was whatever the
    sub-command and the options, and [create], [delete] and [edit] are
    answered with the missing-permission notice before any option is
    read. *)
Theorem tag_writes_need_manage_messages (d : OptionsData) (user_tag : string)
    (i : Interaction.t) (s : S) :
  Tag.mayManage i = false ->
  snd (Tag.run P d user_tag i s) = s
  /\ (forall guild_id path,
        Interaction.guild i = Some guild_id ->
        subCommandPath d = Some path ->
        Tag.writes path = true ->
        fst (Tag.run P d user_tag i s) = Returned Tag.NeedManageMessages).
Proof.
  intros Hm. split.
  - unfold Tag.run, getSubCommand, getString. rewrite Hm. cbn [negb].
    tag_cases; reflexivity.
  - intros guild_id path Hg Hp Hw.
    unfold Tag.run, getSubCommand, Tag.writes in *. rewrite Hp, Hg, Hm. cbn [negb].
    destruct (findsSubCommand "create" path); [reflexivity|].
    destruct (findsSubCommand "delete" path); [reflexivity|].
    destruct (findsSubCommand "edit" path); [reflexivity | discriminate Hw].
Qed.

End TagFacts.

Lemma tag_writes_only_when_allowed_witness :
  exists guild_id path name,
    Interaction.guild (Fixture.moderator "tag" "u2") = Some guild_id
    /\ subCommandPath (Fixture.options ["create"] [("name", "faq"); ("content", "Read it.")])
       = Some path
    /\ Tag.mayManage (Fixture.moderator "tag" "u2") = true
    /\ stringOptions (Fixture.options ["create"] [("name", "faq"); ("content", "Read it.")])
         !! "name" = Some name
    /\ ((findsSubCommand "create" path = true
         /\ Tag.GetTagLimit Fixture.tags Fixture.oneTag guild_id = false
         /\ Tag.GetTag Fixture.tags Fixture.oneTag guild_id name = None)
        \/ (findsSubCommand "create" path = false
            /\ Tag.writes path = true
            /\ exists tag, Tag.GetTag Fixture.tags Fixture.oneTag guild_id name = Some tag)).
Proof.
  apply (tag_writes_only_when_allowed Fixture.tags
           (Fixture.options ["create"] [("name", "faq"); ("content", "Read it.")])
           "u2#0001" (Fixture.moderator "tag" "u2") Fixture.oneTag).
  vm_compute. discriminate.
Defined.

Lemma tag_writes_need_manage_messages_witness :
  snd (Tag.run Fixture.tags (Fixture.options ["delete"] [("name", "rules")]) "u1#0001"
         (Sample.slash "tag" "u1") Fixture.oneTag)
  = Fixture.oneTag.
Proof.
  refine (proj1 (tag_writes_need_manage_messages Fixture.tags
            (Fixture.options ["delete"] [("name", "rules")]) "u1#0001"
            (Sample.slash "tag" "u1") Fixture.oneTag _)).
  reflexivity.
Defined.

(** * The code-jam plugin *)

Section JamFacts.

Context {J Q : Type} (model : Jam.Model J Q).

Lemma remember_enabled (g : string) (jam : J) (p : Jam.Plugin J Q) :
  Jam.cachingDisabled p = false ->
  Jam.cache (Jam.remember g jam p) = <[g := jam]> (Jam.cache p)
  /\ Jam.query (Jam.remember g jam p) = Jam.query p
  /\ Jam.cachingDisabled (Jam.remember g jam p) = false.
Proof. intros H. unfold Jam.remember. rewrite H. now cbn. Qed.

Lemma call_keeps_flag (p : Jam.Plugin J Q) (c : Jam.Call) :
  Jam.cachingDisabled (Jam.call model p c) = Jam.cachingDisabled p.
Proof.
  destruct c; cbn [Jam.call];
    unfold Jam.init, Jam.deleteCodeJam, Jam.createCodeJam, Jam.update, Jam.remember;
    cbn [Jam.cachingDisabled Jam.setQuery Jam.setCache snd];
    destruct (Jam.cachingDisabled p) eqn:E; cbn; congruence.
Qed.

(** X16: with the cache enabled, a jam that has just been created is served
    from the cache under the guild id it was created for: [getCodeJam] and
    the three property getters answer from the document the database
    returned, without a query. *)
Theorem created_jam_is_served_from_cache (guildId name description : string)
    (roleId image : option string) (start end_ entity createdBy createdById : string)
    (now : Z) (p : Jam.Plugin J Q) :
  Jam.cachingDisabled p = false ->
  let created := Jam.createCodeJam model guildId name description roleId image start
                   end_ entity createdBy createdById now p in
  Jam.getCodeJam model guildId (snd created) = Some (fst created)
  /\ Jam.getJamRole model guildId (snd created) = Jam.event_role_id model (fst created)
  /\ Jam.getJamParticipants model guildId (snd created)
     = Jam.event_participants_ids model (fst created)
  /\ Jam.getJamManagers model guildId (snd created)
     = Jam.event_managers_ids model (fst created).
Proof.
  intros H created. subst created. unfold Jam.createCodeJam. cbn [fst snd].
  set (r := Jam.create model _ _).
  destruct (remember_enabled guildId (snd r) (Jam.setQuery p (fst r)) H) as (Hc & _ & Hf).
  unfold Jam.getCodeJam, Jam.getJamRole, Jam.getJamParticipants, Jam.getJamManagers,
    Jam.getProperty.
  rewrite Hf, Hc, lookup_insert_eq. now cbn.
Qed.

(** X17: with the cache enabled, deleting a jam removes the guild's entry
    from the cache and leaves the entries of other guilds alone; afterwards
    the property getters answer null for that guild, and [getCodeJam] answers
    what the database still finds. *)
Theorem deleted_jam_leaves_the_cache (guildId : string) (p : Jam.Plugin J Q) :
  Jam.cachingDisabled p = false ->
  Jam.cache (Jam.deleteCodeJam model guildId p) !! guildId = None
  /\ (forall other, other <> guildId ->
        Jam.cache (Jam.deleteCodeJam model guildId p) !! other = Jam.cache p !! other)
  /\ Jam.getJamRole model guildId (Jam.deleteCodeJam model guildId p) = None
  /\ Jam.getJamParticipants model guildId (Jam.deleteCodeJam model guildId p) = None
  /\ Jam.getJamManagers model guildId (Jam.deleteCodeJam model guildId p) = None
  /\ Jam.getCodeJam model guildId (Jam.deleteCodeJam model guildId p)
     = Jam.findOne model (Jam.findOneAndDelete model (Jam.query p) guildId) guildId.
Proof.
  intros H.
  unfold Jam.getCodeJam, Jam.getJamRole, Jam.getJamParticipants, Jam.getJamManagers,
    Jam.getProperty, Jam.deleteCodeJam.
  cbn [Jam.cachingDisabled Jam.setQuery]. rewrite H.
  cbn [negb Jam.cache Jam.query Jam.cachingDisabled Jam.setCache Jam.setQuery].
  rewrite H. cbn [negb]. rewrite lookup_delete_eq.
  repeat split. intros other Hne. now rewrite lookup_delete_ne.
Qed.

(** X18: with the cache enabled, a guild that is not in the cache is looked
    up in the database by [getCodeJam] only: the three property getters
    answer null without a query, even when the database holds the jam; and
    what [getCodeJam] finds there is not put into the cache. *)
Theorem uncached_jam_is_found_by_getCodeJam_only (guildId : string)
    (p : Jam.Plugin J Q) :
  Jam.cachingDisabled p = false ->
  Jam.cache p !! guildId = None ->
  Jam.getCodeJam model guildId p = Jam.findOne model (Jam.query p) guildId
  /\ Jam.getJamRole model guildId p = None
  /\ Jam.getJamParticipants model guildId p = None
  /\ Jam.getJamManagers model guildId p = None.
Proof.
  intros H Hc.
  unfold Jam.getCodeJam, Jam.getJamRole, Jam.getJamParticipants, Jam.getJamManagers,
    Jam.getProperty.
  rewrite H, Hc. now cbn.
Qed.

(** X19: with caching disabled, no sequence of [init], create, delete and
    update calls ever writes the cache, and the flag stays set. *)
Theorem disabled_cache_is_never_written (calls : list Jam.Call) (p : Jam.Plugin J Q) :
  Jam.cachingDisabled p = true ->
  Jam.cache (fold_left (Jam.call model) calls p) = Jam.cache p
  /\ Jam.cachingDisabled (fold_left (Jam.call model) calls p) = true.
Proof.
  revert p. induction calls as [|c calls IH]; intros p H; cbn [fold_left]; [now split|].
  assert (Hf : Jam.cachingDisabled (Jam.call model p c) = true)
    by (now rewrite call_keeps_flag).
  destruct (IH _ Hf) as [-> ->]. split; [|reflexivity].
  destruct c; cbn [Jam.call];
    unfold Jam.init, Jam.deleteCodeJam, Jam.createCodeJam, Jam.update, Jam.remember;
    cbn [Jam.cachingDisabled Jam.setQuery Jam.setCache snd]; rewrite H; reflexivity.
Qed.

(** X20: with the cache enabled, each of the seven update methods stores the
    document the database answered with under the guild id of the call, so
    [getCodeJam] then returns exactly that document; the cache entries of
    other guilds are not touched. *)
Theorem update_caches_the_database_answer (guildId : string) (u : Jam.Update)
    (p : Jam.Plugin J Q) :
  Jam.cachingDisabled p = false ->
  Jam.getCodeJam model guildId (Jam.update model guildId u p)
  = Some (snd (Jam.findOneAndUpdate model (Jam.query p) guildId u))
  /\ Jam.query (Jam.update model guildId u p)
     = fst (Jam.findOneAndUpdate model (Jam.query p) guildId u)
  /\ (forall other, other <> guildId ->
        Jam.cache (Jam.update model guildId u p) !! other = Jam.cache p !! other).
Proof.
  intros H. unfold Jam.update.
  set (r := Jam.findOneAndUpdate model _ _ _).
  destruct (remember_enabled guildId (snd r) (Jam.setQuery p (fst r)) H) as (Hc & Hq & Hf).
  unfold Jam.getCodeJam. rewrite Hf, Hc, Hq, lookup_insert_eq.
  repeat split. intros other Hne. now rewrite lookup_insert_ne.
Qed.

Lemma find_append {A} (f : A -> bool) (l1 l2 : list A) :
  List.find f (l1 ++ l2)
  = match List.find f l1 with
    | Some x => Some x
    | None => List.find f l2
    end.
Proof.
  induction l1 as [|a l1 IH]; cbn [app List.find]; [reflexivity|].
  destruct (f a); [reflexivity | exact IH].
Qed.

Lemma fold_insert_lookup (jams : list J) : forall (c : gmap string J) (g : string),
  fold_left (fun c jam => <[Jam.guild_id model jam := jam]> c) jams c !! g
  = match List.find (fun jam => String.eqb (Jam.guild_id model jam) g) (rev jams) with
    | Some jam => Some jam
    | None => c !! g
    end.
Proof.
  induction jams as [|jam jams IH]; intros c g; cbn [fold_left rev]; [reflexivity|].
  rewrite IH, find_append.
  destruct (List.find _ (rev jams)); [reflexivity|].
  cbn [List.find].
  destruct (String.eqb_spec (Jam.guild_id model jam) g) as [<-|Hne].
  - apply lookup_insert_eq.
  - now apply lookup_insert_ne.
Qed.

(** X21: with the cache enabled, [init] loads every jam the database finds
    under the jam's own guild id; when several jams share a guild id the last
    one found is kept, and a guild without a jam keeps the entry it had.
    With caching disabled [init] changes nothing. *)
Theorem init_loads_the_last_jam_of_each_guild (p : Jam.Plugin J Q) (g : string) :
  Jam.cache (Jam.init model p) !! g
  = (if Jam.cachingDisabled p then Jam.cache p !! g
     else match List.find (fun jam => String.eqb (Jam.guild_id model jam) g)
                  (rev (Jam.find model (Jam.query p))) with
          | Some jam => Some jam
          | None => Jam.cache p !! g
          end)
  /\ Jam.query (Jam.init model p) = Jam.query p.
Proof.
  unfold Jam.init. destruct (Jam.cachingDisabled p); [now split|].
  cbn [Jam.cache Jam.query Jam.setCache]. split; [apply fold_insert_lookup | reflexivity].
Qed.

End JamFacts.

Lemma created_jam_is_served_from_cache_witness :
  Jam.getJamRole Fixture.jams "g2"
    (snd (Jam.createCodeJam Fixture.jams "g2" "Autumn Jam" "Two days." (Some "role-9")
            None "2023-10-01" "2023-10-03" "EXTERNAL" "mod" "u2" 1000 Fixture.cold))
  = Jam.event_role_id Fixture.jams
      (fst (Jam.createCodeJam Fixture.jams "g2" "Autumn Jam" "Two days." (Some "role-9")
              None "2023-10-01" "2023-10-03" "EXTERNAL" "mod" "u2" 1000 Fixture.cold)).
Proof.
  refine (proj1 (proj2 (created_jam_is_served_from_cache Fixture.jams "g2" "Autumn Jam"
            "Two days." (Some "role-9") None "2023-10-01" "2023-10-03" "EXTERNAL" "mod"
            "u2" 1000 Fixture.cold _))).
  reflexivity.
Defined.

Lemma deleted_jam_leaves_the_cache_witness :
  Jam.getJamRole Fixture.jams "g1" (Jam.deleteCodeJam Fixture.jams "g1" Fixture.cold) = None.
Proof.
  refine (proj1 (proj2 (proj2
    (deleted_jam_leaves_the_cache Fixture.jams "g1" Fixture.cold _)))).
  reflexivity.
Defined.

Lemma uncached_jam_is_found_by_getCodeJam_only_witness :
  Jam.getCodeJam Fixture.jams "g1" Fixture.cold = Some Fixture.springJam
  /\ Jam.getJamRole Fixture.jams "g1" Fixture.cold = None.
Proof.
  destruct (uncached_jam_is_found_by_getCodeJam_only Fixture.jams "g1" Fixture.cold
              eq_refl eq_refl) as (H1 & H2 & _).
  split; [exact H1 | exact H2].
Defined.

Lemma disabled_cache_is_never_written_witness :
  Jam.cache (fold_left (Jam.call Fixture.jams)
               [Jam.CallInit; Jam.CallUpdate "g1" (Jam.PushParticipant "u2" 1000);
                Jam.CallDelete "g1"] Fixture.uncached)
  = Jam.cache Fixture.uncached.
Proof.
  refine (proj1 (disabled_cache_is_never_written Fixture.jams
            [Jam.CallInit; Jam.CallUpdate "g1" (Jam.PushParticipant "u2" 1000);
             Jam.CallDelete "g1"] Fixture.uncached _)).
  reflexivity.
Defined.

Lemma update_caches_the_database_answer_witness :
  Jam.getCodeJam Fixture.jams "g1"
    (Jam.update Fixture.jams "g1" (Jam.PushParticipant "u2" 1000) Fixture.cold)
  = Some (snd (Jam.findOneAndUpdate Fixture.jams (Jam.query Fixture.cold) "g1"
                 (Jam.PushParticipant "u2" 1000))).
Proof.
  refine (proj1 (update_caches_the_database_answer Fixture.jams "g1"
            (Jam.PushParticipant "u2" 1000) Fixture.cold _)).
  reflexivity.
Defined.
